(** * Voice assistant server: the streaming turn pipeline of [server/main.py]

    A shallow embedding of the WebSocket handler [websocket_endpoint] and of
    the functions it calls ([init_conversation], [transcribe_audio],
    [chat_stream], [synthesize_speech_streaming]), with the properties the
    specification states about them.

    Python text is modelled by [string]; an [ascii] stands for the code point
    of the same number, so the model covers text in the range U+0000..U+00FF.
    Byte strings are [list byte].  The module level variable
    [conversation_history] is a store shared by every connection; the
    variables [audio_buffer] and [sample_rate] are local to one call of
    [websocket_endpoint].  Output on [stdout] is left out, and
    [websocket.send_json] is taken to succeed. *)

From Stdlib Require Import ZArith List Bool Lia.
From Stdlib Require Import Strings.Ascii Strings.String Strings.Byte.
Import ListNotations.

Open Scope string_scope.
Open Scope list_scope.

(** String concatenation, Python's [+] on [str]; [++] is kept for lists. *)
Infix "+++" := String.append (right associativity, at level 60).

(** ** Python string primitives used by the handler *)

Module PyStr.

(** [str.isspace] on one code point below 256: U+0009..U+000D,
    U+001C..U+0020, U+0085 and U+00A0. *)
Definition is_space (c : ascii) : bool :=
  let n := nat_of_ascii c in
  ((9 <=? n)%nat && (n <=? 13)%nat) || ((28 <=? n)%nat && (n <=? 32)%nat)
  || (n =? 133)%nat || (n =? 160)%nat.

(** [c in s] for a one character string [c]. *)
Fixpoint contains (c : ascii) (s : string) : bool :=
  match s with
  | EmptyString => false
  | String a s' => Ascii.eqb a c || contains c s'
  end.

(** [s.rfind(c)]: the highest index of [c] in [s], or [-1]. *)
Fixpoint rfind (c : ascii) (s : string) : Z :=
  match s with
  | EmptyString => (-1)%Z
  | String a s' =>
      let r := rfind c s' in
      if (0 <=? r)%Z then (r + 1)%Z
      else if Ascii.eqb a c then 0%Z else (-1)%Z
  end.

Fixpoint take (n : nat) (s : string) : string :=
  match n, s with
  | S n', String a s' => String a (take n' s')
  | _, _ => EmptyString
  end.

Fixpoint drop (n : nat) (s : string) : string :=
  match n, s with
  | S n', String _ s' => drop n' s'
  | _, _ => s
  end.

(** A slice bound as Python resolves it: a negative bound counts from the
    end, and the result is clamped to [0 .. len]. *)
Definition bound (i : Z) (len : nat) : nat :=
  if (i <? 0)%Z then Z.to_nat (Z.max 0 (Z.of_nat len + i))
  else Nat.min (Z.to_nat i) len.

(** [s[:i]] and [s[i:]]. *)
Definition slice_to (i : Z) (s : string) : string :=
  take (bound i (String.length s)) s.

Definition slice_from (i : Z) (s : string) : string :=
  drop (bound i (String.length s)) s.

Fixpoint lstrip (s : string) : string :=
  match s with
  | EmptyString => EmptyString
  | String a s' => if is_space a then lstrip s' else s
  end.

Fixpoint rstrip (s : string) : string :=
  match s with
  | EmptyString => EmptyString
  | String a s' =>
      match rstrip s' with
      | EmptyString => if is_space a then EmptyString else String a EmptyString
      | r => String a r
      end
  end.

(** [s.strip()] *)
Definition strip (s : string) : string := rstrip (lstrip s).

(** Truth value of a string: [if s:] *)
Definition truthy (s : string) : bool :=
  match s with EmptyString => false | _ => true end.

(** [sep.join(parts)] *)
Fixpoint join (sep : string) (parts : list string) : string :=
  match parts with
  | [] => EmptyString
  | [p] => p
  | p :: rest => p +++ sep +++ join sep rest
  end.

(** Every character is white space (true of the empty string). *)
Fixpoint blank (s : string) : bool :=
  match s with
  | EmptyString => true
  | String a s' => is_space a && blank s'
  end.

End PyStr.

(** ** The sentence segmenter (the [for ender in sentence_enders] loop) *)

Module Segmenter.
Import PyStr.

(** [sentence_enders = ".!?"], iterated in this order. *)
Definition sentence_enders : list ascii := ["."; "!"; "?"]%char.

(** The span cut off the buffer and the remainder, for the first ender of
    [enders] that occurs in [buf]; [None] when no ender occurs.  The [break]
    ends the loop after the first ender that is found. *)
Fixpoint cut (enders : list ascii) (buf : string) : option (string * string) :=
  match enders with
  | [] => None
  | ender :: rest =>
      if contains ender buf then
        let idx := rfind ender buf in
        Some (slice_to (idx + 1) buf, slice_from (idx + 1) buf)
      else cut rest buf
  end.

(** One pass of the loop body over a new chunk: the sentence to speak, if
    any, and the new [sentence_buffer]. *)
Definition feed (sentence_buffer chunk : string) : option string * string :=
  let sentence_buffer := sentence_buffer +++ chunk in
  match cut sentence_enders sentence_buffer with
  | Some (span, rest) =>
      let sentence := strip span in
      ((if truthy sentence then Some sentence else None), rest)
  | None => (None, sentence_buffer)
  end.

(** The segmenter over a whole stream of chunks: the sentences spoken after
    each chunk, in order, and the trailing buffer. *)
Fixpoint feed_all (sentence_buffer : string) (chunks : list string)
  : list (list string) * string :=
  match chunks with
  | [] => ([], sentence_buffer)
  | chunk :: more =>
      let '(spoken, buf) := feed sentence_buffer chunk in
      let '(later, final) := feed_all buf more in
      ((match spoken with Some s => [s] | None => [] end) :: later, final)
  end.

Definition emitted (sentence_buffer : string) (chunks : list string) : list string :=
  List.concat (fst (feed_all sentence_buffer chunks)).

Definition trailing (sentence_buffer : string) (chunks : list string) : string :=
  snd (feed_all sentence_buffer chunks).

End Segmenter.

Import PyStr Segmenter.

(** ** JSON values, as [json.loads] returns them

    Numbers are kept to the integers; a dict is the list of its items. *)

Module Json.

Set Warnings "-register-all".

Inductive json : Type :=
| JNull
| JBool (b : bool)
| JNum (n : Z)
| JStr (s : string)
| JArr (items : list json)
| JObj (fields : list (string * json)).

Set Warnings "register-all".

(** The binding of [key] in a dict. *)
Fixpoint lookup (key : string) (fields : list (string * json)) : option json :=
  match fields with
  | [] => None
  | (k, v) :: rest => if String.eqb k key then Some v else lookup key rest
  end.

(** [data.get(key, default)]; [None] stands for the [AttributeError] that a
    value other than a dict raises. *)
Definition get (data : json) (key : string) (default : json) : option json :=
  match data with
  | JObj fields =>
      Some (match lookup key fields with Some v => v | None => default end)
  | _ => None
  end.

(** [value == s] for a string literal [s]. *)
Definition is_str (value : json) (s : string) : bool :=
  match value with
  | JStr t => String.eqb t s
  | _ => false
  end.

(** Truth value of a JSON value. *)
Definition truthy (value : json) : bool :=
  match value with
  | JNull => false
  | JBool b => b
  | JNum n => negb (n =? 0)%Z
  | JStr s => PyStr.truthy s
  | JArr items => match items with [] => false | _ => true end
  | JObj fields => match fields with [] => false | _ => true end
  end.

End Json.

Import Json.

(** ** Data model *)

Inductive role : Type := System | User | Assistant.

(** One entry of [conversation_history]. *)
Record turn : Type := Turn { turn_role : role; turn_content : string }.

(** The exceptions the handler can meet. *)
Inductive exn : Type :=
| WebSocketDisconnect
| JSONDecodeError
| AttributeError
| KeyError
| TypeError
| ValueError
| ServiceError (what : string).

(** Messages sent with [websocket.send_json]. *)
Inductive server_msg : Type :=
| MsgTranscript (text : string)
| MsgResponseText (text : string) (done : bool)
| MsgAudio (data : string) (sample_rate : Z)
| MsgDone
| MsgError (message : string)
| MsgHistoryCleared.

(** A text frame, by what [json.loads] does on it. *)
Inductive frame : Type :=
| Malformed (raw : string)   (* [json.loads] raises [JSONDecodeError] *)
| Parsed (data : json).      (* [json.loads] returns [data] *)

(** What one call of [websocket.receive_text] yields. *)
Inductive received : Type :=
| Disconnected               (* raises [WebSocketDisconnect] *)
| Text (f : frame).

(** One line of the chat response, by what [json.loads] does on it. *)
Inductive line : Type :=
| LineEmpty                  (* the empty string: [if line] fails *)
| LineMalformed              (* [JSONDecodeError], caught: [pass] *)
| LineParsed (data : json).

(** The variables local to one call of [websocket_endpoint]. *)
Record session : Type := Session {
  audio_buffer : list byte;
  sample_rate : json
}.

(** The collaborators the handler calls: the base64 codec, the Whisper
    model, the chat endpoint and the Piper voice.  A call that raises
    returns the exception.

    [whisper_load] is the exception [get_whisper_model()] raises in this
    handler, if it raises: a first call that raises ends the handler, and
    after a first call that returns the model is kept, so one outcome serves
    every call of a handler.  [whisper] is [model.transcribe] on the
    samples.  [piper] is [get_piper_voice()] followed by
    [voice.synthesize_stream_raw]: a voice that fails to load is a synthesis
    that raises before its first chunk. *)
Record services : Type := Services {
  b64decode : json -> exn + list byte;
  b64encode : list byte -> string;
  whisper_load : option exn;
  whisper : list Z -> exn + list string;
  ollama : list turn -> list line * option exn;
  piper : string -> list (list byte) * option exn
}.

(** [CONFIG].  The dash of the prompt, U+2014, lies outside the range of
    code points the model of text covers; it is held as the three bytes of
    its UTF-8 form, so [system_prompt] is two characters longer than the
    source string.  Nothing below depends on the content of the prompt. *)
Definition em_dash : string :=
  String (ascii_of_nat 226) (String (ascii_of_nat 128)
    (String (ascii_of_nat 148) EmptyString)).

Definition system_prompt : string :=
  "You are a helpful voice assistant. Keep your responses very brief and concise"
  +++ em_dash +++
  "ideally 1 sentence. Speak naturally as if having a conversation. Avoid lists, markdown, or lengthy explanations unless explicitly asked. The user sometimes makes typos or autocorrects the wrong thing. Make assumptions about what they may have meant and respond as if they said that.".

Definition tts_sample_rate : Z := 22050.

Definition system_turn : turn := Turn System system_prompt.

(** ** Handler programs

    A handler is a tree of the effects it has on the world outside its local
    variables: messages sent to the client and accesses to the global
    [conversation_history]. *)

Inductive prog (A : Type) : Type :=
| Ret (a : A)
| Raise (e : exn)
| Send (m : server_msg) (k : prog A)         (* [await websocket.send_json(m)] *)
| History (k : list turn -> prog A)          (* read [conversation_history] *)
| Rebind (h : list turn) (k : prog A)        (* [conversation_history = h] *)
| Append (t : turn) (k : prog A).            (* [conversation_history.append(t)] *)

Arguments Ret {A} a.
Arguments Raise {A} e.
Arguments Send {A} m k.
Arguments History {A} k.
Arguments Rebind {A} h k.
Arguments Append {A} t k.

Fixpoint bind {A B : Type} (p : prog A) (f : A -> prog B) : prog B :=
  match p with
  | Ret a => f a
  | Raise e => Raise e
  | Send m k => Send m (bind k f)
  | History k => History (fun h => bind (k h) f)
  | Rebind h k => Rebind h (bind k f)
  | Append t k => Append t (bind k f)
  end.

Declare Scope prog_scope.
Delimit Scope prog_scope with prog.
Bind Scope prog_scope with prog.

Notation "x <- p ;; q" := (bind p (fun x => q))
  (at level 61, p at next level, right associativity) : prog_scope.
Notation "' pat <- p ;; q" := (bind p (fun x => match x with pat => q end))
  (at level 61, pat pattern, p at next level, right associativity) : prog_scope.
Notation "p ;; q" := (bind p (fun _ => q))
  (at level 61, right associativity) : prog_scope.

Open Scope prog_scope.

Definition send (m : server_msg) : prog unit := Send m (Ret tt).

(** Lift the result of a call that may raise. *)
Definition call {A : Type} (r : exn + A) : prog A :=
  match r with
  | inl e => Raise e
  | inr a => Ret a
  end.

(** ** The functions of [main.py] *)

Section Handler.

Variable sv : services.

(** [init_conversation]: the global is bound to a fresh list that holds the
    system prompt. *)
Definition init_conversation : prog unit := Rebind [system_turn] (Ret tt).

(** One 16-bit sample from its two bytes, low byte first, two's complement. *)
Definition int16 (lo hi : byte) : Z :=
  let u := (Z.of_N (Byte.to_N lo) + 256 * Z.of_N (Byte.to_N hi))%Z in
  if (u <? 32768)%Z then u else (u - 65536)%Z.

(** [np.frombuffer(audio_data, dtype=np.int16)]; [None] stands for the
    [ValueError] raised when the size is not a multiple of two. *)
Fixpoint frombuffer_int16 (audio_data : list byte) : option (list Z) :=
  match audio_data with
  | [] => Some []
  | [_] => None
  | lo :: hi :: rest =>
      match frombuffer_int16 rest with
      | Some samples => Some (int16 lo hi :: samples)
      | None => None
      end
  end.

(** [transcribe_audio]: the model is fetched first, then the bytes are
    read as samples, then the model transcribes.  The parameter
    [sample_rate] is not used by the body.  The division of the samples by
    32768.0 is left to [whisper]. *)
Definition transcribe_audio (audio_data : list byte) (sample_rate : json)
  : exn + string :=
  match whisper_load sv with
  | Some e => inl e
  | None =>
      match frombuffer_int16 audio_data with
      | None => inl ValueError
      | Some audio_np =>
          match whisper sv audio_np with
          | inl e => inl e
          | inr segments => inr (strip (join " " segments))
          end
      end
  end.

(** [data.get("message", {}).get("content")] of one response line. *)
Definition line_content (data : json) : exn + json :=
  match Json.get data "message" (JObj []) with
  | None => inl AttributeError
  | Some message =>
      match Json.get message "content" JNull with
      | None => inl AttributeError
      | Some content => inr content
      end
  end.

(** The [async for line in response.aiter_lines()] loop of [chat_stream],
    together with the consumer's loop body [body], which runs at each
    [yield] on the consumer's variables [s]. *)
Fixpoint aiter_lines {S : Type} (lines : list line) (full_response : string)
    (body : S -> string -> prog S) (s : S) : prog (string * S) :=
  match lines with
  | [] => Ret (full_response, s)
  | LineEmpty :: more => aiter_lines more full_response body s
  | LineMalformed :: more => aiter_lines more full_response body s
  | LineParsed data :: more =>
      content <- call (line_content data) ;;
      if Json.truthy content then
        match content with
        | JStr content =>
            s' <- body s content ;;
            aiter_lines more (full_response +++ content) body s'
        | _ => Raise TypeError      (* [full_response += content] *)
        end
      else aiter_lines more full_response body s
  end.

(** [chat_stream(user_message)], iterated by a consumer with loop body
    [body].  The request carries the history as it is after the user turn
    is appended; the assistant turn is appended once the lines run out. *)
Definition chat_stream {S : Type} (user_message : string)
    (body : S -> string -> prog S) (s : S) : prog S :=
  Append (Turn User user_message)
    (History (fun messages =>
       let '(lines, failure) := ollama sv messages in
       ' (full_response, s') <- aiter_lines lines "" body s ;;
       match failure with
       | Some e => Raise e
       | None => Append (Turn Assistant full_response) (Ret s')
       end)).

(** Send the chunks of one synthesis as [audio] messages. *)
Fixpoint send_audio (chunks : list (list byte)) : prog unit :=
  match chunks with
  | [] => Ret tt
  | audio_chunk :: more =>
      send (MsgAudio (b64encode sv audio_chunk) tts_sample_rate) ;;
      send_audio more
  end.

(** [async for audio_chunk in synthesize_speech_streaming(text)] with its
    body. *)
Definition speak (text : string) : prog unit :=
  let '(chunks, failure) := piper sv text in
  send_audio chunks ;;
  match failure with
  | Some e => Raise e
  | None => Ret tt
  end.

(** The body of [async for chunk in chat_stream(transcript)], on the
    variables [(full_response, sentence_buffer)]. *)
Definition on_chunk (vars : string * string) (chunk : string)
  : prog (string * string) :=
  let '(full_response, sentence_buffer) := vars in
  send (MsgResponseText chunk false) ;;
  let '(spoken, sentence_buffer) := feed sentence_buffer chunk in
  match spoken with
  | Some sentence => speak sentence
  | None => Ret tt
  end ;;
  Ret (full_response +++ chunk, sentence_buffer).

(** The branch [msg_type == "end_audio"]. *)
Definition end_audio (st : session) : prog session :=
  match audio_buffer st with
  | [] => send (MsgError "No audio received") ;; Ret st
  | _ =>
      transcript <- call (transcribe_audio (audio_buffer st) (sample_rate st)) ;;
      send (MsgTranscript transcript) ;;
      if negb (PyStr.truthy transcript) then
        send (MsgError "Could not transcribe audio") ;;
        Ret (Session [] (sample_rate st))
      else
        ' (full_response, sentence_buffer) <-
            chat_stream transcript on_chunk ("", "") ;;
        (if PyStr.truthy (strip sentence_buffer)
         then speak (strip sentence_buffer) else Ret tt) ;;
        send (MsgResponseText "" true) ;;
        send MsgDone ;;
        Ret (Session [] (sample_rate st))
  end.

(** One pass of the [while True] body after [receive_text] has returned. *)
Definition on_text (st : session) (f : frame) : prog session :=
  match f with
  | Malformed _ => Raise JSONDecodeError
  | Parsed data =>
      match Json.get data "type" JNull with
      | None => Raise AttributeError
      | Some msg_type =>
          if is_str msg_type "audio" then
            match data with
            | JObj fields =>
                match lookup "data" fields with
                | None => Raise KeyError
                | Some d =>
                    audio_chunk <- call (b64decode sv d) ;;
                    Ret (Session (audio_buffer st ++ audio_chunk)
                           (match lookup "sample_rate" fields with
                            | Some r => r
                            | None => JNum 16000
                            end))
                end
            | _ => Raise AttributeError
            end
          else if is_str msg_type "end_audio" then end_audio st
          else if is_str msg_type "clear_history" then
            init_conversation ;; send MsgHistoryCleared ;; Ret st
          else Ret st
      end
  end.

(** The variables of a handler after [websocket.accept()]. *)
Definition fresh : session := Session [] (JNum 16000).

(** The handler before its loop: [init_conversation()], then the locals. *)
Definition on_accept : prog session := init_conversation ;; Ret fresh.

End Handler.

(** ** Running a handler *)

Inductive outcome (A : Type) : Type :=
| Returned (a : A)
| Raised (e : exn).

Arguments Returned {A} a.
Arguments Raised {A} e.

(** A program run to its end from the history [h]: how it ends, the history
    it leaves and the messages it sent, in order. *)
Fixpoint exec {A : Type} (p : prog A) (h : list turn)
  : outcome A * list turn * list server_msg :=
  match p with
  | Ret a => (Returned a, h, [])
  | Raise e => (Raised e, h, [])
  | Send m k => let '(r, h', out) := exec k h in (r, h', m :: out)
  | History k => exec (k h) h
  | Rebind h' k => exec k h'
  | Append t k => exec k (h ++ [t])
  end.

(** Where the [while True] loop stands. *)
Inductive status : Type :=
| Listening (st : session)   (* waiting in [receive_text] *)
| Ended                      (* [except WebSocketDisconnect]: the handler returned *)
| Failed (e : exn).          (* another exception left the handler *)

(** The [try ... except WebSocketDisconnect] around the loop. *)
Definition leave (e : exn) : status :=
  match e with
  | WebSocketDisconnect => Ended
  | _ => Failed e
  end.

(** The loop over what [receive_text] yields, one result after the other. *)
Fixpoint serve (sv : services) (st : session) (h : list turn) (rx : list received)
  : status * list turn * list server_msg :=
  match rx with
  | [] => (Listening st, h, [])
  | Disconnected :: _ => (Ended, h, [])
  | Text f :: more =>
      match exec (on_text sv st f) h with
      | (Returned st', h', out) =>
          let '(s, h'', out') := serve sv st' h' more in (s, h'', out ++ out')
      | (Raised e, h', out) => (leave e, h', out)
      end
  end.

(** [websocket_endpoint] for a connection accepted when the global holds
    [h0], on the results [rx] of its [receive_text] calls. *)
Definition websocket_endpoint (sv : services) (h0 : list turn) (rx : list received)
  : status * list turn * list server_msg :=
  match exec on_accept h0 with
  | (Returned st, h, out) =>
      let '(s, h', out') := serve sv st h rx in (s, h', out ++ out')
  | (Raised e, h, out) => (leave e, h, out)
  end.

(** ** Connections as tasks of the event loop

    A connection is a handler task with the frames that have arrived and
    were not yet read.  A task runs one effect at a time; frames arrive at
    any moment.  All tasks share the history. *)

Inductive pc : Type :=
| Handling (p : prog session)   (* inside the handler, [p] is left to run *)
| At (s : status).              (* at [receive_text], or gone *)

Record conn : Type := Conn {
  conn_pc : pc;
  inbox : list received;
  outbox : list server_msg
}.

(** A connection as [websocket.accept()] returns. *)
Definition connect : conn := Conn (Handling on_accept) [] [].

(** One step of the task. *)
Definition step (sv : services) (h : list turn) (c : conn) : list turn * conn :=
  match conn_pc c with
  | At (Listening st) =>
      match inbox c with
      | [] => (h, c)
      | Disconnected :: q => (h, Conn (At Ended) q (outbox c))
      | Text f :: q => (h, Conn (Handling (on_text sv st f)) q (outbox c))
      end
  | At _ => (h, c)
  | Handling p =>
      match p with
      | Ret st => (h, Conn (At (Listening st)) (inbox c) (outbox c))
      | Raise e => (h, Conn (At (leave e)) (inbox c) (outbox c))
      | Send m k => (h, Conn (Handling k) (inbox c) (outbox c ++ [m]))
      | History k => (h, Conn (Handling (k h)) (inbox c) (outbox c))
      | Rebind h' k => (h', Conn (Handling k) (inbox c) (outbox c))
      | Append t k => (h ++ [t], Conn (Handling k) (inbox c) (outbox c))
      end
  end.

(** A frame, or the disconnection, reaches the connection. *)
Definition arrive (r : received) (c : conn) : conn :=
  Conn (conn_pc c) (inbox c ++ [r]) (outbox c).

Inductive event : Type :=
| Arrives (r : received)
| Runs.

Definition play1 (sv : services) (ev : event) (w : list turn * conn)
  : list turn * conn :=
  match ev with
  | Arrives r => (fst w, arrive r (snd w))
  | Runs => step sv (fst w) (snd w)
  end.

(** One connection under a schedule of arrivals and task steps. *)
Definition play (sv : services) (sched : list event) (w : list turn * conn)
  : list turn * conn :=
  fold_left (fun w ev => play1 sv ev w) sched w.

(** The frames of a schedule, in arrival order. *)
Fixpoint arrivals (sched : list event) : list received :=
  match sched with
  | [] => []
  | Arrives r :: more => r :: arrivals more
  | Runs :: more => arrivals more
  end.

(** Two connections on one server process. *)
Inductive who : Type := ConnA | ConnB.

Record server : Type := Server {
  conversation_history : list turn;
  conn_a : option conn;
  conn_b : option conn
}.

(** The process after import: the global is the empty list, no client. *)
Definition boot : server := Server [] None None.

Inductive event2 : Type :=
| Accept (w : who)
| On (w : who) (ev : event).

Definition play2_1 (sv : services) (ev : event2) (s : server) : server :=
  match ev with
  | Accept ConnA => Server (conversation_history s) (Some connect) (conn_b s)
  | Accept ConnB => Server (conversation_history s) (conn_a s) (Some connect)
  | On ConnA ev =>
      match conn_a s with
      | Some c =>
          let '(h, c') := play1 sv ev (conversation_history s, c) in
          Server h (Some c') (conn_b s)
      | None => s
      end
  | On ConnB ev =>
      match conn_b s with
      | Some c =>
          let '(h, c') := play1 sv ev (conversation_history s, c) in
          Server h (conn_a s) (Some c')
      | None => s
      end
  end.

Definition play2 (sv : services) (sched : list event2) (s : server) : server :=
  fold_left (fun s ev => play2_1 sv ev s) sched s.

(** What connection [w] has been sent. *)
Definition sent (w : who) (s : server) : list server_msg :=
  match (match w with ConnA => conn_a s | ConnB => conn_b s end) with
  | Some c => outbox c
  | None => []
  end.

(** The events of connection [w] in a schedule. *)
Definition events_of (w : who) (sched : list event2) : list event2 :=
  filter (fun ev =>
            match ev, w with
            | Accept ConnA, ConnA | On ConnA _, ConnA => true
            | Accept ConnB, ConnB | On ConnB _, ConnB => true
            | _, _ => false
            end) sched.

(** ** Derived notions used in the statements *)

(** Concatenation of a list of strings. *)
Fixpoint cat (parts : list string) : string :=
  match parts with
  | [] => EmptyString
  | p :: rest => p +++ cat rest
  end.

(** [inner] is [outer] without white space at its two ends. *)
Definition trimmed (outer inner : string) : Prop :=
  exists l r, outer = l +++ inner +++ r /\ blank l = true /\ blank r = true.

(** [s] ends with the character [c]. *)
Definition ends_with (c : ascii) (s : string) : Prop :=
  exists p, s = p +++ String c EmptyString.

(** The chunks [chat_stream] yields on a response whose lines all load as
    dicts: the non-empty string contents, in order. *)
Fixpoint deltas (lines : list line) : list string :=
  match lines with
  | [] => []
  | LineParsed data :: more =>
      match line_content data with
      | inr (JStr content) =>
          if PyStr.truthy content then content :: deltas more else deltas more
      | _ => deltas more
      end
  | _ :: more => deltas more
  end.

(** The number of [done] messages after the last [history_cleared], counted
    from [n]: the turns completed since the transcript was last reset. *)
Fixpoint turns_from (n : nat) (out : list server_msg) : nat :=
  match out with
  | [] => n
  | MsgDone :: more => turns_from (S n) more
  | MsgHistoryCleared :: more => turns_from 0 more
  | _ :: more => turns_from n more
  end.

Definition turns_since_clear (out : list server_msg) : nat := turns_from 0 out.

(** A transcript made of the system turn and [n] complete exchanges; each
    assistant turn is the whole reply to the request that carried the
    transcript up to its user turn. *)
Inductive exchanges (sv : services) : list turn -> nat -> Prop :=
| exchanges_none : exchanges sv [system_turn] 0
| exchanges_more h n text lines :
    exchanges sv h n ->
    ollama sv (h ++ [Turn User text]) = (lines, None) ->
    exchanges sv (h ++ [Turn User text; Turn Assistant (cat (deltas lines))]) (S n).

Definition is_error (m : server_msg) : bool :=
  match m with MsgError _ => true | _ => false end.

Definition is_done (m : server_msg) : bool :=
  match m with MsgDone => true | _ => false end.

(** Frames of the three kinds the client sends. *)
Definition end_audio_frame : frame :=
  Parsed (JObj [("type", JStr "end_audio")]).

Definition clear_history_frame : frame :=
  Parsed (JObj [("type", JStr "clear_history")]).

Definition audio_frame (data : string) : frame :=
  Parsed (JObj [("type", JStr "audio"); ("data", JStr data);
                ("sample_rate", JNum 16000)]).

(** ** The behaviour the specification words differently

    The segmenter of the specification makes its cut at the last ending
    character of any of the three kinds and scans the remainder again; its
    turn pipeline recovers from a failing collaborator. *)

Module Claimed.

(** The highest index of an ending character of any kind, or [-1]. *)
Definition last_ender (buf : string) : Z :=
  fold_right (fun ender acc => Z.max (rfind ender buf) acc) (-1)%Z sentence_enders.

Fixpoint scan (fuel : nat) (buf : string) : list string * string :=
  match fuel with
  | O => ([], buf)
  | S fuel' =>
      let idx := last_ender buf in
      if (0 <=? idx)%Z then
        let sentence := strip (slice_to (idx + 1) buf) in
        let '(later, final) := scan fuel' (slice_from (idx + 1) buf) in
        ((if PyStr.truthy sentence then [sentence] else []) ++ later, final)
      else ([], buf)
  end.

Definition feed (sentence_buffer chunk : string) : list string * string :=
  let sentence_buffer := sentence_buffer +++ chunk in
  scan (S (String.length sentence_buffer)) sentence_buffer.

(** The recovery the specification asks of a turn whose Responder or
    Synthesizer fails: the handler goes on, the transcript gains the user
    turn and an assistant turn, and the last message is an [error]. *)
Definition recovers (r : outcome session * list turn * list server_msg)
    (h : list turn) (text : string) : Prop :=
  exists st partial sent_before message,
    r = (Returned st,
         h ++ [Turn User text; Turn Assistant partial],
         sent_before ++ [MsgError message]).

End Claimed.

(** ** Collaborators for the examples

    The codec agrees with base64 on the one payload the examples use:
    [AAA=] is the base64 text of two zero bytes. *)

Module Demo.

Definition b64decode (d : json) : exn + list byte :=
  if is_str d "AAA=" then inr [x00; x00]
  else inl (ServiceError "binascii.Error").

Definition b64encode (chunk : list byte) : string := "AAA=".

Definition whisper (samples : list Z) : exn + list string := inr [" Hello there."].

Definition content_line (text : string) : line :=
  LineParsed (JObj [("message", JObj [("role", JStr "assistant");
                                     ("content", JStr text)])]).

(** A chat endpoint whose reply depends on how much history it is sent. *)
Definition ollama (messages : list turn) : list line * option exn :=
  if (List.length messages <=? 2)%nat
  then ([content_line "Nice to"; content_line " meet you."; LineEmpty], None)
  else ([content_line "Welcome back."; LineEmpty], None).

Definition piper (text : string) : list (list byte) * option exn :=
  ([[x00; x00]], None).

Definition sv : services :=
  Services b64decode b64encode None whisper ollama piper.

(** The chat stream breaks after the first chunk. *)
Definition ollama_broken (messages : list turn) : list line * option exn :=
  ([content_line "Nice to"], Some (ServiceError "httpx.ReadError")).

Definition sv_broken : services :=
  Services b64decode b64encode None whisper ollama_broken piper.

(** The voice fails on every sentence. *)
Definition piper_broken (text : string) : list (list byte) * option exn :=
  ([], Some (ServiceError "piper")).

Definition sv_mute : services :=
  Services b64decode b64encode None whisper ollama piper_broken.

(** The Whisper model cannot be loaded. *)
Definition sv_unloadable : services :=
  Services b64decode b64encode (Some (ServiceError "WhisperModel"))
    whisper ollama piper.

(** The model hears no speech. *)
Definition whisper_quiet (samples : list Z) : exn + list string := inr [" "; ""].

Definition sv_quiet : services :=
  Services b64decode b64encode None whisper_quiet ollama piper.

(** A session that holds two bytes of audio. *)
Definition recorded : session := Session [x00; x00] (JNum 16000).

(** Connection [w] records one utterance and lets the turn run. *)
Definition one_turn (w : who) : list event2 :=
  [On w (Arrives (Text (audio_frame "AAA=")));
   On w (Arrives (Text end_audio_frame))]
  ++ repeat (On w Runs) 24.

(** A first client that has two turns, alone on the server. *)
Definition alone : list event2 :=
  [Accept ConnA; On ConnA Runs; On ConnA Runs]
  ++ one_turn ConnA ++ one_turn ConnA.

(** The same first client, while a second client connects between its two
    turns and sends nothing. *)
Definition visited : list event2 :=
  [Accept ConnA; On ConnA Runs; On ConnA Runs]
  ++ one_turn ConnA
  ++ [Accept ConnB; On ConnB Runs; On ConnB Runs]
  ++ one_turn ConnA.

End Demo.

(** The messages of a turn before its end: the transcript, the text deltas
    and the audio chunks. *)
Definition in_turn (m : server_msg) : Prop :=
  match m with
  | MsgTranscript _ | MsgResponseText _ false | MsgAudio _ _ => True
  | _ => False
  end.

(** Programs that only send messages of a given kind, or raise. *)
Inductive sends_only (P : server_msg -> Prop) {A : Type} : prog A -> Prop :=
| sends_ret a : sends_only P (Ret a)
| sends_raise e : sends_only P (Raise e)
| sends_send m k : P m -> sends_only P k -> sends_only P (Send m k).

#[local] Hint Constructors sends_only : core.

(** ** What a connection comes to

    The frames [rx] join the inbox. *)
Definition deliver (rx : list received) (w : list turn * conn) : list turn * conn :=
  (fst w, Conn (conn_pc (snd w)) (inbox (snd w) ++ rx) (outbox (snd w))).

(** The state the task reaches when it is left to run on the frames that
    have arrived: the rest of the current pass, then the loop over the
    inbox. *)
Definition settle (sv : services) (w : list turn * conn)
  : status * list turn * list server_msg :=
  let '(h, c) := w in
  match conn_pc c with
  | At (Listening st) =>
      let '(s, h', out) := serve sv st h (inbox c) in (s, h', outbox c ++ out)
  | At s => (s, h, outbox c)
  | Handling p =>
      match exec p h with
      | (Returned st, h1, out1) =>
          let '(s, h', out) := serve sv st h1 (inbox c) in
          (s, h', outbox c ++ out1 ++ out)
      | (Raised e, h1, out1) => (leave e, h1, outbox c ++ out1)
      end
  end.

(** The task has nothing left to do: it has stopped, or it waits on an
    empty inbox. *)
Definition at_rest (c : conn) (s : status) : Prop :=
  conn_pc c = At s /\ (forall st, s = Listening st -> inbox c = []).

(** ** Further notions: model loading, audio frames, message kinds *)

(** The lazily loaded models.  [W] and [P] stand for [WhisperModel] and
    [PiperVoice]; [load] is what the constructor does if it is called. *)
Section Models.

Variables W P : Type.

(** The globals [whisper_model] and [piper_voice]. *)
Record models : Type := Models {
  whisper_model : option W;
  piper_voice : option P
}.

(** The process after import: both are [None]. *)
Definition unloaded : models := Models None None.

(** [get_whisper_model()] *)
Definition get_whisper_model (load : exn + W) (g : models) : (exn + W) * models :=
  match whisper_model g with
  | None =>
      match load with
      | inl e => (inl e, g)
      | inr m => (inr m, Models (Some m) (piper_voice g))
      end
  | Some m => (inr m, g)
  end.

(** [get_piper_voice()] *)
Definition get_piper_voice (load : exn + P) (g : models) : (exn + P) * models :=
  match piper_voice g with
  | None =>
      match load with
      | inl e => (inl e, g)
      | inr v => (inr v, Models (whisper_model g) (Some v))
      end
  | Some v => (inr v, g)
  end.

End Models.

Arguments Models {W P} _ _.
Arguments whisper_model {W P} _.
Arguments piper_voice {W P} _.
Arguments unloaded {W P}.
Arguments get_whisper_model {W P} load g.
Arguments get_piper_voice {W P} load g.

(** An [audio] frame with the payload [d], with or without a
    [sample_rate] field. *)
Definition audio_msg (d : json) (rate : option json) : frame :=
  Parsed (JObj (("type", JStr "audio") :: ("data", d)
                :: match rate with
                   | Some r => [("sample_rate", r)]
                   | None => []
                   end)).

(** The value of [sample_rate] after a run of [audio] frames. *)
Fixpoint last_rate (current : json) (rates : list (option json)) : json :=
  match rates with
  | [] => current
  | Some r :: more => last_rate r more
  | None :: more => last_rate (JNum 16000) more
  end.

(** The range of a 16-bit signed sample. *)
Definition is_int16 (z : Z) : Prop := (-32768 <= z <= 32767)%Z.

(** The [audio] messages of one synthesis. *)
Definition audio_msgs (sv : services) (text : string) : list server_msg :=
  map (fun audio_chunk => MsgAudio (b64encode sv audio_chunk) tts_sample_rate)
      (fst (piper sv text)).

(** The messages of the chunk loop run on the deltas [ds] from the sentence
    buffer [buf], when every synthesis succeeds: each delta, then the audio
    of the sentence it completes. *)
Fixpoint stream_trace (sv : services) (buf : string) (ds : list string)
  : list server_msg :=
  match ds with
  | [] => []
  | d :: more =>
      MsgResponseText d false
      :: (match fst (feed buf d) with
          | Some sentence => audio_msgs sv sentence
          | None => []
          end)
      ++ stream_trace sv (snd (feed buf d)) more
  end.

(** What is spoken in the final flush. *)
Definition final_flush (sentence_buffer : string) : list string :=
  if PyStr.truthy (strip sentence_buffer) then [strip sentence_buffer] else [].

Definition is_response_text (m : server_msg) : bool :=
  match m with MsgResponseText _ _ => true | _ => false end.

Definition is_audio (m : server_msg) : bool :=
  match m with MsgAudio _ _ => true | _ => false end.

(** * Properties *)

(** ** Strings *)

Lemma append_nil_r (s : string) : s +++ "" = s.
Proof. induction s as [|a s IH]; simpl; [reflexivity | now rewrite IH]. Qed.

Lemma append_assoc (s t u : string) : (s +++ t) +++ u = s +++ t +++ u.
Proof. induction s as [|a s IH]; simpl; [reflexivity | now rewrite IH]. Qed.

Lemma length_append (s t : string) :
  String.length (s +++ t) = (String.length s + String.length t)%nat.
Proof. induction s as [|a s IH]; simpl; [reflexivity | now rewrite IH]. Qed.

Lemma take_drop (n : nat) (s : string) : take n s +++ drop n s = s.
Proof.
  revert s; induction n as [|n IH]; intros [|a s]; simpl; try reflexivity.
  now rewrite IH.
Qed.

Lemma take_append (p q : string) (n : nat) :
  take (String.length p + n) (p +++ q) = p +++ take n q.
Proof. induction p as [|a p IH]; simpl; [reflexivity | now rewrite IH]. Qed.

Lemma drop_append (p q : string) (n : nat) :
  drop (String.length p + n) (p +++ q) = drop n q.
Proof. induction p as [|a p IH]; simpl; [reflexivity | exact IH]. Qed.

Lemma slice_split (i : Z) (s : string) : slice_to i s +++ slice_from i s = s.
Proof. unfold slice_to, slice_from; apply take_drop. Qed.

Lemma contains_append (c : ascii) (s t : string) :
  contains c (s +++ t) = contains c s || contains c t.
Proof.
  induction s as [|a s IH]; simpl; [reflexivity|].
  now rewrite IH, orb_assoc.
Qed.

(** [rfind] is [-1] exactly when the character is absent; otherwise it is
    the length of what precedes the last occurrence. *)
Lemma rfind_spec (c : ascii) (s : string) :
  (contains c s = false /\ rfind c s = (-1)%Z)
  \/ (exists p r, s = p +++ String c r /\ contains c r = false
                  /\ rfind c s = Z.of_nat (String.length p)).
Proof.
  induction s as [|a s IH]; simpl.
  - now left.
  - destruct IH as [[Hno Hr] | (p & r & Hs & Hno & Hr)].
    + rewrite Hr; simpl. destruct (Ascii.eqb_spec a c) as [->|Hne].
      * right. exists "", s. simpl. repeat split; assumption.
      * left. split; [exact Hno | reflexivity].
    + right. exists (String a p), r. subst s. simpl.
      rewrite Hr. destruct (0 <=? Z.of_nat (String.length p))%Z eqn:E.
      * repeat split; [assumption | lia].
      * apply Z.leb_gt in E. lia.
Qed.

Lemma bound_inside (n len : nat) :
  (n <= len)%nat -> bound (Z.of_nat n) len = n.
Proof.
  intros H. unfold bound.
  destruct (Z.of_nat n <? 0)%Z eqn:E.
  - apply Z.ltb_lt in E. lia.
  - rewrite Nat2Z.id. lia.
Qed.

(** The two slices around the last occurrence of a character that occurs. *)
Lemma rfind_slices (c : ascii) (s : string) :
  contains c s = true ->
  exists p r, s = p +++ String c r /\ contains c r = false
              /\ slice_to (rfind c s + 1) s = p +++ String c ""
              /\ slice_from (rfind c s + 1) s = r.
Proof.
  intros Hin. destruct (rfind_spec c s) as [[Hno _] | (p & r & Hs & Hno & Hr)];
    [congruence|].
  exists p, r. split; [exact Hs|]. split; [exact Hno|].
  assert (Hb : bound (rfind c s + 1) (String.length s) = (String.length p + 1)%nat).
  { rewrite Hr. replace (Z.of_nat (String.length p) + 1)%Z
      with (Z.of_nat (String.length p + 1)) by lia.
    apply bound_inside. rewrite Hs, length_append. simpl. lia. }
  unfold slice_to, slice_from. rewrite Hb. clear Hb Hr Hin. subst s.
  rewrite take_append, drop_append. simpl.
  split; reflexivity.
Qed.

Lemma lstrip_split (s : string) :
  exists l, s = l +++ lstrip s /\ blank l = true.
Proof.
  induction s as [|a s (l & Hs & Hl)]; simpl.
  - exists "". now split.
  - destruct (is_space a) eqn:Ha.
    + exists (String a l). simpl. rewrite Ha, Hl. split; [now f_equal | reflexivity].
    + exists "". now split.
Qed.

Lemma rstrip_split (s : string) :
  exists r, s = rstrip s +++ r /\ blank r = true.
Proof.
  induction s as [|a s (r & Hs & Hr)]; simpl.
  - exists "". now split.
  - destruct (rstrip s) as [|b t] eqn:E.
    + destruct (is_space a) eqn:Ha.
      * exists (String a r). simpl in *. rewrite Ha, Hr.
        split; [now f_equal | reflexivity].
      * exists r. simpl in *. split; [now f_equal | exact Hr].
    + exists r. split; [simpl; now f_equal | exact Hr].
Qed.

Lemma strip_trimmed (s : string) : trimmed s (strip s).
Proof.
  destruct (lstrip_split s) as (l & Hs & Hl).
  destruct (rstrip_split (lstrip s)) as (r & Ht & Hr).
  exists l, r. unfold strip. split; [|split; assumption].
  now rewrite <- Ht.
Qed.

Lemma rstrip_blank (s : string) : blank s = true -> rstrip s = "".
Proof.
  induction s as [|a s IH]; simpl; [reflexivity|].
  intros H. apply andb_true_iff in H as [Ha Hs].
  now rewrite (IH Hs), Ha.
Qed.

Lemma rstrip_last (s : string) :
  rstrip s = "" \/ exists p c, rstrip s = p +++ String c "" /\ is_space c = false.
Proof.
  induction s as [|a s IH]; simpl; [now left|].
  destruct (rstrip s) as [|b t] eqn:E.
  - destruct (is_space a) eqn:Ha; [now left|].
    right. exists "", a. now split.
  - right. destruct IH as [IH | (p & c & Hp & Hc)]; [discriminate|].
    exists (String a p), c. simpl. split; [now rewrite Hp | exact Hc].
Qed.

Lemma blank_append (s t : string) : blank (s +++ t) = blank s && blank t.
Proof.
  induction s as [|a s IH]; simpl; [reflexivity|].
  now rewrite IH, andb_assoc.
Qed.

(** A stripped string that is white space only is empty. *)
Lemma strip_blank_empty (s : string) : blank (strip s) = true -> strip s = "".
Proof.
  unfold strip. intros H.
  destruct (rstrip_last (lstrip s)) as [E | (p & c & E & Hc)]; [exact E|].
  rewrite E, blank_append in H. simpl in H. rewrite Hc in H.
  rewrite andb_false_r in H. discriminate.
Qed.

(** ** The segmenter *)

Lemma cut_none (enders : list ascii) (buf : string) :
  cut enders buf = None <-> (forall e, In e enders -> contains e buf = false).
Proof.
  induction enders as [|e enders IH]; simpl.
  - split; [intros _ e [] | reflexivity].
  - destruct (contains e buf) eqn:E.
    + split; [discriminate|]. intros H. specialize (H e (or_introl eq_refl)).
      congruence.
    + rewrite IH. split.
      * intros H e' [<-|Hin]; [exact E | now apply H].
      * intros H e' Hin. apply H. now right.
Qed.

(** The cut is made after the last occurrence of the first ender, in the
    order of [enders], that occurs in the buffer. *)
Lemma cut_some (enders : list ascii) (buf span rest : string) :
  cut enders buf = Some (span, rest) ->
  exists pre e post,
    enders = pre ++ e :: post
    /\ (forall e', In e' pre -> contains e' buf = false)
    /\ contains e buf = true
    /\ buf = span +++ rest
    /\ ends_with e span
    /\ contains e rest = false.
Proof.
  induction enders as [|e enders IH]; simpl; [discriminate|].
  destruct (contains e buf) eqn:E.
  - intros H. injection H as <- <-.
    destruct (rfind_slices e buf E) as (p & r & Hs & Hno & Hto & Hfrom).
    exists [], e, enders. split; [reflexivity|]. split; [intros e' []|].
    split; [exact E|]. split; [now rewrite slice_split|].
    split; [exists p; exact Hto | now rewrite Hfrom].
  - intros H. destruct (IH H) as (pre & e0 & post & -> & Hpre & Hin & Hs & He & Hr).
    exists (e :: pre), e0, post. split; [reflexivity|].
    split; [|repeat split; assumption].
    intros e' [<-|Hin']; [exact E | now apply Hpre].
Qed.

Lemma feed_cases (sentence_buffer chunk : string) :
  (cut sentence_enders (sentence_buffer +++ chunk) = None
   /\ feed sentence_buffer chunk = (None, sentence_buffer +++ chunk))
  \/ (exists span rest,
        cut sentence_enders (sentence_buffer +++ chunk) = Some (span, rest)
        /\ feed sentence_buffer chunk
           = ((if PyStr.truthy (strip span) then Some (strip span) else None), rest)).
Proof.
  unfold feed. destruct (cut sentence_enders (sentence_buffer +++ chunk))
    as [[span rest]|] eqn:E.
  - right. exists span, rest. now split.
  - left. now split.
Qed.

(** The spans cut off a stream of chunks, the trailing buffer included,
    make up the buffer and the chunks. *)
Lemma feed_all_spans (chunks : list string) (sentence_buffer : string) :
  exists spans,
    cat spans +++ trailing sentence_buffer chunks = sentence_buffer +++ cat chunks
    /\ emitted sentence_buffer chunks = filter PyStr.truthy (map strip spans).
Proof.
  revert sentence_buffer. unfold trailing, emitted.
  induction chunks as [|chunk more IH]; intros buf; simpl.
  - exists []. simpl. now rewrite append_nil_r.
  - destruct (feed_cases buf chunk) as [[_ Hf] | (span & rest & Hc & Hf)];
      rewrite Hf.
    + destruct (IH (buf +++ chunk)) as (spans & Hcat & Hem).
      destruct (feed_all (buf +++ chunk) more) as [later final]; simpl in *.
      exists spans. now rewrite Hcat, append_assoc.
    + apply cut_some in Hc as (_ & _ & _ & _ & _ & _ & Hs & _).
      destruct (IH rest) as (spans & Hcat & Hem).
      destruct (feed_all rest more) as [later final]; simpl in *.
      exists (span :: spans). simpl. split.
      * now rewrite append_assoc, Hcat, <- !append_assoc, Hs.
      * rewrite Hem. now destruct (PyStr.truthy (strip span)).
Qed.

(** C2 (as amended): for every sequence of deltas, the stream is cut into
    consecutive spans whose concatenation, followed by the trailing sentence
    buffer, is the concatenation of the deltas; the emitted Sentences are
    these spans, each without the white space at its two ends, a span of
    white space only being emitted as no Sentence. *)
Theorem C2_spans_make_up_the_stream (chunks : list string) :
  exists spans,
    cat spans +++ trailing "" chunks = cat chunks
    /\ emitted "" chunks = filter PyStr.truthy (map strip spans)
    /\ Forall (fun span => trimmed span (strip span)) spans.
Proof.
  destruct (feed_all_spans chunks "") as (spans & Hcat & Hem).
  exists spans. split; [exact Hcat|]. split; [exact Hem|].
  apply Forall_forall. intros span _. apply strip_trimmed.
Qed.

(** C2 (as stated) fails on the two deltas of the specification's own
    example: the space after the first full stop is lost. *)
Lemma C2_trimming_drops_characters :
  let chunks := ["Hello world. How are"; " you? Fine."] in
  cat (emitted "" chunks) +++ trailing "" chunks = "Hello world.How are you? Fine."
  /\ cat (emitted "" chunks) +++ trailing "" chunks <> cat chunks.
Proof. split; [reflexivity | discriminate]. Qed.

(** C3 (as amended): when the buffer with the new delta holds an ending
    character, the cut is made after the last occurrence of one kind of
    ending character, the first of '.', '!', '?' in this order that the
    buffer holds; the span up to there is trimmed and is emitted if it is
    not empty, the remainder is the new buffer, and no second cut is made
    for that delta. *)
Theorem C3_cut_after_last_of_first_kind (sentence_buffer chunk : string) :
  (exists e, In e sentence_enders
             /\ contains e (sentence_buffer +++ chunk) = true) ->
  exists pre e post span rest,
    sentence_enders = pre ++ e :: post
    /\ (forall e', In e' pre -> contains e' (sentence_buffer +++ chunk) = false)
    /\ contains e (sentence_buffer +++ chunk) = true
    /\ sentence_buffer +++ chunk = span +++ rest
    /\ ends_with e span
    /\ contains e rest = false
    /\ feed sentence_buffer chunk
       = ((if PyStr.truthy (strip span) then Some (strip span) else None), rest).
Proof.
  intros (e & Hin & He).
  destruct (feed_cases sentence_buffer chunk) as [[Hc _] | (span & rest & Hc & Hf)].
  - rewrite cut_none in Hc. rewrite (Hc e Hin) in He. discriminate.
  - destruct (cut_some _ _ _ _ Hc) as (pre & e0 & post & H1 & H2 & H3 & H4 & H5 & H6).
    exists pre, e0, post, span, rest. repeat split; assumption.
Qed.

Lemma C3_cut_after_last_of_first_kind_witness :
  exists pre e post span rest,
    sentence_enders = pre ++ e :: post
    /\ (forall e', In e' pre -> contains e' ("Wait" +++ "! Is it? Go") = false)
    /\ contains e ("Wait" +++ "! Is it? Go") = true
    /\ "Wait" +++ "! Is it? Go" = span +++ rest
    /\ ends_with e span
    /\ contains e rest = false
    /\ feed "Wait" "! Is it? Go"
       = ((if PyStr.truthy (strip span) then Some (strip span) else None), rest).
Proof.
  apply (C3_cut_after_last_of_first_kind "Wait" "! Is it? Go").
  exists "!"%char. split; [simpl; auto | reflexivity].
Defined.

(** C3 (as stated) fails: with a full stop before a question mark the code
    cuts after the full stop and keeps the question in the buffer, where the
    claim cuts after the question mark. *)
Lemma C3_not_the_last_of_any_kind :
  feed "" "Hi. Ok?" = (Some "Hi.", " Ok?")
  /\ Claimed.feed "" "Hi. Ok?" = (["Hi. Ok?"], "")
  /\ (let '(spoken, buf) := feed "" "Hi. Ok?" in
      (match spoken with Some s => [s] | None => [] end, buf))
     <> Claimed.feed "" "Hi. Ok?".
Proof. repeat split; try reflexivity. discriminate. Qed.

(** C4 (as amended): on the deltas "Hello world. How are" and " you? Fine."
    exactly the Sentence "Hello world." is emitted after the first delta and
    exactly the one Sentence "How are you? Fine." after the second; nothing
    is left in the buffer. *)
Theorem C4_two_deltas :
  feed "" "Hello world. How are" = (Some "Hello world.", " How are")
  /\ feed " How are" " you? Fine." = (Some "How are you? Fine.", "")
  /\ feed_all "" ["Hello world. How are"; " you? Fine."]
     = ([["Hello world."]; ["How are you? Fine."]], "").
Proof. repeat split. Qed.

(** C4 (as stated) fails: the second delta does not yield the two Sentences
    "How are you?" and "Fine.". *)
Lemma C4_second_delta_is_one_sentence :
  nth 1 (fst (feed_all "" ["Hello world. How are"; " you? Fine."])) []
  <> ["How are you?"; "Fine."].
Proof. discriminate. Qed.

(** ** Running handler programs *)

Lemma exec_bind {A B : Type} (p : prog A) (f : A -> prog B) (h : list turn) :
  exec (bind p f) h
  = match exec p h with
    | (Returned a, h', out) =>
        let '(r, h'', out') := exec (f a) h' in (r, h'', out ++ out')
    | (Raised e, h', out) => (Raised e, h', out)
    end.
Proof.
  revert h. induction p as [a|e|m k IH|k IH|h0 k IH|t k IH]; intros h; simpl.
  - now destruct (exec (f a) h) as [[r h'] out].
  - reflexivity.
  - rewrite IH. destruct (exec k h) as [[[a|e] h'] out]; [|reflexivity].
    now destruct (exec (f a) h') as [[r h''] out'].
  - apply IH.
  - apply IH.
  - apply IH.
Qed.

Lemma sends_only_bind (P : server_msg -> Prop) {A B : Type}
    (p : prog A) (f : A -> prog B) :
  sends_only P p -> (forall a, sends_only P (f a)) -> sends_only P (bind p f).
Proof. intros Hp Hf. induction Hp; simpl; auto. Qed.

Lemma sends_only_exec (P : server_msg -> Prop) {A : Type} (p : prog A)
    (h : list turn) :
  sends_only P p ->
  snd (fst (exec p h)) = h /\ Forall P (snd (exec p h)).
Proof.
  intros Hp. induction Hp as [a|e|m k Hm Hk [IHh IHo]]; simpl; auto.
  destruct (exec k h) as [[r h'] out]; simpl in *. auto.
Qed.

Lemma send_audio_sends (sv : services) (chunks : list (list byte)) :
  sends_only in_turn (send_audio sv chunks).
Proof.
  induction chunks as [|c more IH]; simpl; [auto|].
  constructor; [exact I | exact IH].
Qed.

Lemma speak_sends (sv : services) (text : string) :
  sends_only in_turn (speak sv text).
Proof.
  unfold speak. destruct (piper sv text) as [chunks failure].
  apply sends_only_bind; [apply send_audio_sends|].
  intros _. destruct failure; auto.
Qed.

Lemma on_chunk_sends (sv : services) (vars : string * string) (chunk : string) :
  sends_only in_turn (on_chunk sv vars chunk).
Proof.
  unfold on_chunk. destruct vars as [full_response sentence_buffer].
  simpl. constructor; [exact I|].
  destruct (feed sentence_buffer chunk) as [[sentence|] buf]; simpl; auto.
  apply sends_only_bind; [apply speak_sends | auto].
Qed.

(** The line loop leaves the history alone; when it returns, the response
    collected is the concatenation of the deltas. *)
Lemma aiter_lines_exec (sv : services) (lines : list line)
    (full_response : string) (vars : string * string) (h : list turn) :
  let '(r, h', out) := exec (aiter_lines lines full_response (on_chunk sv) vars) h in
  h' = h /\ Forall in_turn out
  /\ (forall full vars', r = Returned (full, vars') ->
        full = full_response +++ cat (deltas lines)).
Proof.
  revert full_response vars.
  induction lines as [|l more IH]; intros full_response vars; simpl.
  - repeat split; auto. intros full vars' [= <- _]. now rewrite append_nil_r.
  - destruct l as [| |data]; try apply IH.
    rewrite exec_bind. destruct (line_content data) as [e|content]; simpl.
    { repeat split; auto. discriminate. }
    destruct (Json.truthy content) eqn:Htruthy.
    + destruct content as [|b|n|content|items|fields];
        try (simpl; repeat split; auto; discriminate).
      simpl in Htruthy. rewrite Htruthy. rewrite exec_bind.
      pose proof (sends_only_exec in_turn (on_chunk sv vars content) h
                    (on_chunk_sends sv vars content)) as [Hh Ho].
      destruct (exec (on_chunk sv vars content) h) as [[[vars1|e] h1] out1];
        simpl in *; subst h1.
      * specialize (IH (full_response +++ content) vars1).
        destruct (exec (aiter_lines more (full_response +++ content)
                          (on_chunk sv) vars1) h) as [[r h2] out2].
        destruct IH as (-> & Hout & Hfull). repeat split.
        -- apply Forall_app; auto.
        -- intros full vars' Hr. rewrite (Hfull _ _ Hr). simpl.
           now rewrite append_assoc.
      * repeat split; auto. discriminate.
    + specialize (IH full_response vars).
      destruct (exec (aiter_lines more full_response (on_chunk sv) vars) h)
        as [[r h2] out2].
      destruct IH as (-> & Hout & Hfull). repeat split; auto.
      intros full vars' Hr. rewrite (Hfull _ _ Hr).
      destruct content as [|b|n|content|items|fields]; try reflexivity.
      simpl in Htruthy. now rewrite Htruthy.
Qed.

(** [chat_stream] under the consumer of the turn pipeline: the user turn is
    in the history before the request; the assistant turn is appended only
    when the stream was read to its end. *)
Lemma chat_stream_exec (sv : services) (text : string) (h : list turn) :
  let '(r, h', out) := exec (chat_stream sv text (on_chunk sv) ("", "")) h in
  Forall in_turn out
  /\ match r with
     | Returned _ =>
         exists lines,
           ollama sv (h ++ [Turn User text]) = (lines, None)
           /\ h' = (h ++ [Turn User text]) ++ [Turn Assistant (cat (deltas lines))]
     | Raised _ => h' = h ++ [Turn User text]
     end.
Proof.
  unfold chat_stream. cbn [exec].
  destruct (ollama sv (h ++ [Turn User text])) as [lines failure].
  rewrite exec_bind.
  pose proof (aiter_lines_exec sv lines "" ("", "") (h ++ [Turn User text])) as H.
  destruct (exec (aiter_lines lines "" (on_chunk sv) ("", "")) (h ++ [Turn User text]))
    as [[[[full vars]|e] h1] out].
  - destruct H as (-> & Hout & Hfull). specialize (Hfull _ _ eq_refl).
    simpl in Hfull. subst full.
    destruct failure as [e|]; cbn [exec].
    + rewrite app_nil_r. now split.
    + rewrite app_nil_r. split; [exact Hout|]. now exists lines.
  - destruct H as (-> & Hout & _). now split.
Qed.

(** The end of a turn, from the final flush on. *)
Lemma flush_exec (sv : services) (sentence_buffer : string) (rate : json)
    (h : list turn) :
  let '(r, h', out) :=
    exec ((if PyStr.truthy (strip sentence_buffer)
           then speak sv (strip sentence_buffer) else Ret tt) ;;
          send (MsgResponseText "" true) ;;
          send MsgDone ;;
          Ret (Session [] rate)) h in
  h' = h
  /\ match r with
     | Returned st' =>
         st' = Session [] rate
         /\ exists pre, out = pre ++ [MsgResponseText "" true; MsgDone]
                        /\ Forall in_turn pre
     | Raised _ => Forall in_turn out
     end.
Proof.
  rewrite exec_bind.
  assert (Hs : sends_only in_turn
                 (if PyStr.truthy (strip sentence_buffer)
                  then speak sv (strip sentence_buffer) else Ret tt)).
  { destruct (PyStr.truthy (strip sentence_buffer));
      [apply speak_sends | constructor]. }
  apply (sends_only_exec _ _ h) in Hs as [Hh Ho].
  destruct (exec (if PyStr.truthy (strip sentence_buffer)
                  then speak sv (strip sentence_buffer) else Ret tt) h)
    as [[[[]|e] h1] out]; simpl in *; subst h1.
  - split; [reflexivity|]. split; [reflexivity|]. now exists out.
  - now split.
Qed.

(** A turn that gets a transcript: either it completes, with the exchange
    appended and [done] as its last message, or it raises without any
    [error] or [done] message. *)
Lemma end_audio_exec (sv : services) (st : session) (h : list turn)
    (text : string) :
  audio_buffer st <> [] ->
  transcribe_audio sv (audio_buffer st) (sample_rate st) = inr text ->
  PyStr.truthy text = true ->
  let '(r, h', out) := exec (end_audio sv st) h in
  match r with
  | Returned st' =>
      st' = Session [] (sample_rate st)
      /\ exists lines pre,
           ollama sv (h ++ [Turn User text]) = (lines, None)
           /\ h' = h ++ [Turn User text; Turn Assistant (cat (deltas lines))]
           /\ out = MsgTranscript text :: pre ++ [MsgResponseText "" true; MsgDone]
           /\ Forall in_turn pre
  | Raised _ =>
      Forall in_turn out
      /\ (h' = h ++ [Turn User text]
          \/ exists lines,
               ollama sv (h ++ [Turn User text]) = (lines, None)
               /\ h' = h ++ [Turn User text; Turn Assistant (cat (deltas lines))])
      /\ (snd (ollama sv (h ++ [Turn User text])) <> None ->
          h' = h ++ [Turn User text])
  end.
Proof.
  intros Hbuf Htr Htext. unfold end_audio.
  destruct (audio_buffer st) as [|b bs] eqn:Eb; [congruence|].
  rewrite Htr. cbn [call bind send exec]. rewrite Htext. cbn [negb].
  rewrite exec_bind.
  pose proof (chat_stream_exec sv text h) as H.
  destruct (exec (chat_stream sv text (on_chunk sv) ("", "")) h)
    as [[[[full buf]|e] h1] out1].
  - destruct H as (Hout1 & lines & Hol & ->).
    pose proof (flush_exec sv buf (sample_rate st)
                  ((h ++ [Turn User text]) ++ [Turn Assistant (cat (deltas lines))]))
      as H2.
    cbn beta iota in *.
    destruct (exec _ ((h ++ [Turn User text]) ++ [Turn Assistant (cat (deltas lines))]))
      as [[[st'|e] h2] out2].
    + destruct H2 as (-> & -> & pre & -> & Hpre).
      split; [reflexivity|]. exists lines, (out1 ++ pre).
      rewrite <- !app_assoc. repeat split; auto. apply Forall_app; auto.
    + destruct H2 as (-> & Hout2). rewrite <- app_assoc. split.
      * constructor; [exact I | apply Forall_app; auto].
      * split; [right; now exists lines|]. rewrite Hol. simpl. congruence.
  - split; [constructor; [exact I | tauto]|].
    split; [left; tauto | intros _; tauto].
Qed.

Lemma on_text_end_audio (sv : services) (st : session) (data : json) :
  Json.get data "type" JNull = Some (JStr "end_audio") ->
  on_text sv st (Parsed data) = end_audio sv st.
Proof. intros H. unfold on_text. now rewrite H. Qed.

Lemma on_text_clear_history (sv : services) (st : session) (data : json)
    (h : list turn) :
  Json.get data "type" JNull = Some (JStr "clear_history") ->
  exec (on_text sv st (Parsed data)) h
  = (Returned st, [system_turn], [MsgHistoryCleared]).
Proof. intros H. unfold on_text. now rewrite H. Qed.

Lemma turns_from_in_turn (pre rest : list server_msg) (n : nat) :
  Forall in_turn pre -> turns_from n (pre ++ rest) = turns_from n rest.
Proof.
  induction 1 as [|m pre Hm _ IH]; simpl; [reflexivity|].
  destruct m as [t|t [|]|d r| |e|]; simpl in Hm; try contradiction; exact IH.
Qed.

Lemma turns_from_app (out out' : list server_msg) (n : nat) :
  turns_from n (out ++ out') = turns_from (turns_from n out) out'.
Proof.
  revert n. induction out as [|m out IH]; intros n; simpl; [reflexivity|].
  destruct m; apply IH.
Qed.

Lemma exchanges_length (sv : services) (h : list turn) (n : nat) :
  exchanges sv h n -> List.length h = (1 + 2 * n)%nat.
Proof.
  induction 1 as [|h n text lines _ IH _]; [reflexivity|].
  rewrite length_app, IH. simpl. lia.
Qed.

(** A pass of the loop that returns keeps the transcript made of complete
    exchanges, and the count of [done] messages follows it. *)
Lemma end_audio_returned (sv : services) (st st' : session) (h h' : list turn)
    (out : list server_msg) (n : nat) :
  exec (end_audio sv st) h = (Returned st', h', out) ->
  exchanges sv h n ->
  exchanges sv h' (turns_from n out).
Proof.
  intros Hex Hn.
  destruct (audio_buffer st) as [|b bs] eqn:Eb.
  { unfold end_audio in Hex. rewrite Eb in Hex. simpl in Hex.
    injection Hex as _ <- <-. exact Hn. }
  destruct (transcribe_audio sv (audio_buffer st) (sample_rate st))
    as [e|text] eqn:Etr.
  { unfold end_audio in Hex. rewrite Eb in Hex. rewrite <- Eb, Etr in Hex.
    discriminate. }
  destruct (PyStr.truthy text) eqn:Etext.
  - assert (Hbuf : audio_buffer st <> []) by (rewrite Eb; discriminate).
    pose proof (end_audio_exec sv st h text Hbuf Etr Etext) as H.
    rewrite Hex in H. destruct H as (_ & lines & pre & Hol & -> & -> & Hpre).
    change (MsgTranscript text :: pre ++ [MsgResponseText "" true; MsgDone])
      with ((MsgTranscript text :: pre) ++ [MsgResponseText "" true; MsgDone]).
    rewrite turns_from_in_turn by (constructor; [exact I | exact Hpre]).
    simpl. now apply exchanges_more.
  - unfold end_audio in Hex. rewrite Eb in Hex. rewrite <- Eb, Etr in Hex.
    cbn [call bind send exec] in Hex. rewrite Etext in Hex. simpl in Hex.
    injection Hex as _ <- <-. exact Hn.
Qed.

Lemma on_text_returned (sv : services) (st st' : session) (f : frame)
    (h h' : list turn) (out : list server_msg) (n : nat) :
  exec (on_text sv st f) h = (Returned st', h', out) ->
  exchanges sv h n ->
  exchanges sv h' (turns_from n out).
Proof.
  intros Hex Hn. destruct f as [raw|data]; [discriminate|].
  unfold on_text in Hex.
  destruct (Json.get data "type" JNull) as [msg_type|]; [|discriminate].
  destruct (is_str msg_type "audio").
  { destruct data as [| | | | |fields]; try discriminate.
    destruct (lookup "data" fields) as [d|]; [|discriminate].
    destruct (b64decode sv d) as [e|chunk]; [discriminate|].
    simpl in Hex. injection Hex as _ <- <-. exact Hn. }
  destruct (is_str msg_type "end_audio").
  { eapply end_audio_returned; eassumption. }
  destruct (is_str msg_type "clear_history").
  { simpl in Hex. injection Hex as _ <- <-. constructor. }
  simpl in Hex. injection Hex as _ <- <-. exact Hn.
Qed.

Lemma serve_listening (sv : services) (rx : list received) (st st' : session)
    (h h' : list turn) (out : list server_msg) (n : nat) :
  serve sv st h rx = (Listening st', h', out) ->
  exchanges sv h n ->
  exchanges sv h' (turns_from n out).
Proof.
  revert st h n out. induction rx as [|r rx IH]; intros st h n out Hs Hn.
  - simpl in Hs. injection Hs as _ <- <-. exact Hn.
  - destruct r as [|f]; [discriminate|]. simpl in Hs.
    destruct (exec (on_text sv st f) h) as [[[st1|e] h1] out1] eqn:Hex.
    + destruct (serve sv st1 h1 rx) as [[s h2] out2] eqn:Hrest.
      injection Hs as -> <- <-. rewrite turns_from_app.
      eapply IH; [exact Hrest|]. eapply on_text_returned; eassumption.
    + destruct e; discriminate.
Qed.

(** X15: for a connection that is still listening, with no other
    connection at work on the shared transcript, the transcript is the
    system turn followed by N user/assistant pairs, 1 + 2N turns, where N
    counts the turns completed since the connection started or since the
    last [clear_history]; the request of each turn carried the transcript up
    to its user turn, and its assistant turn is the whole reply; a
    [clear_history] message leaves exactly the system turn. *)
Theorem X15_transcript_of_complete_turns (sv : services) (h0 : list turn)
    (rx : list received) (st : session) (h : list turn) (out : list server_msg) :
  websocket_endpoint sv h0 rx = (Listening st, h, out) ->
  exchanges sv h (turns_since_clear out)
  /\ List.length h = (1 + 2 * turns_since_clear out)%nat
  /\ (forall st1 h1,
        exec (on_text sv st1 clear_history_frame) h1
        = (Returned st1, [system_turn], [MsgHistoryCleared])).
Proof.
  intros Hw. unfold websocket_endpoint in Hw. simpl in Hw.
  destruct (serve sv fresh [system_turn] rx) as [[s h1] out1] eqn:Hs.
  injection Hw as -> <- <-.
  assert (H : exchanges sv h1 (turns_since_clear out1)).
  { eapply serve_listening; [exact Hs | constructor]. }
  split; [exact H|]. split; [eapply exchanges_length; exact H|].
  intros st1 h2. reflexivity.
Qed.

Lemma X15_transcript_of_complete_turns_witness :
  let rx := [Text (audio_frame "AAA="); Text end_audio_frame;
             Text (audio_frame "AAA="); Text end_audio_frame] in
  let h := [system_turn;
            Turn User "Hello there."; Turn Assistant "Nice to meet you.";
            Turn User "Hello there."; Turn Assistant "Welcome back."] in
  let out := [MsgTranscript "Hello there."; MsgResponseText "Nice to" false;
              MsgResponseText " meet you." false; MsgAudio "AAA=" 22050;
              MsgResponseText "" true; MsgDone;
              MsgTranscript "Hello there."; MsgResponseText "Welcome back." false;
              MsgAudio "AAA=" 22050; MsgResponseText "" true; MsgDone] in
  websocket_endpoint Demo.sv [] rx = (Listening (Session [] (JNum 16000)), h, out)
  /\ exchanges Demo.sv h 2
  /\ List.length h = 5%nat.
Proof.
  cbv zeta.
  assert (E : websocket_endpoint Demo.sv []
                [Text (audio_frame "AAA="); Text end_audio_frame;
                 Text (audio_frame "AAA="); Text end_audio_frame]
              = (Listening (Session [] (JNum 16000)),
                 [system_turn;
                  Turn User "Hello there."; Turn Assistant "Nice to meet you.";
                  Turn User "Hello there."; Turn Assistant "Welcome back."],
                 [MsgTranscript "Hello there."; MsgResponseText "Nice to" false;
                  MsgResponseText " meet you." false; MsgAudio "AAA=" 22050;
                  MsgResponseText "" true; MsgDone;
                  MsgTranscript "Hello there."; MsgResponseText "Welcome back." false;
                  MsgAudio "AAA=" 22050; MsgResponseText "" true; MsgDone]))
    by reflexivity.
  split; [exact E|].
  destruct (X15_transcript_of_complete_turns _ _ _ _ _ _ E) as (Hx & Hlen & _).
  split; [exact Hx | exact Hlen].
Defined.

(** C8: an [end_audio] message received while the audio buffer is empty
    sends exactly one message, the [error] "No audio received", and leaves
    the transcript, the buffer and the sample rate as they were. *)
Theorem C8_end_audio_with_empty_buffer (sv : services) (st : session)
    (h : list turn) (data : json) :
  Json.get data "type" JNull = Some (JStr "end_audio") ->
  audio_buffer st = [] ->
  exec (on_text sv st (Parsed data)) h
  = (Returned st, h, [MsgError "No audio received"]).
Proof.
  intros Htype Hbuf. rewrite (on_text_end_audio sv st data Htype).
  unfold end_audio. now rewrite Hbuf.
Qed.

Lemma C8_end_audio_with_empty_buffer_witness :
  Json.get (JObj [("type", JStr "end_audio")]) "type" JNull
  = Some (JStr "end_audio")
  /\ audio_buffer fresh = []
  /\ exec (on_text Demo.sv fresh end_audio_frame) [system_turn]
     = (Returned fresh, [system_turn], [MsgError "No audio received"]).
Proof.
  split; [reflexivity|]. split; [reflexivity|].
  apply (C8_end_audio_with_empty_buffer Demo.sv fresh [system_turn]
           (JObj [("type", JStr "end_audio")])); reflexivity.
Defined.

(** C7: on [end_audio] with a non-empty audio buffer, once the
    transcription has returned its text, the first message sent is
    [transcript] with that text, whatever the text is; when the text is
    empty or white space only, the one other message is the [error] "Could
    not transcribe audio", the pass ends there and the transcript of the
    conversation is unchanged. *)
Theorem C7_transcript_then_abort_on_no_text (sv : services) (st : session)
    (h : list turn) (data : json) (text : string) :
  Json.get data "type" JNull = Some (JStr "end_audio") ->
  audio_buffer st <> [] ->
  transcribe_audio sv (audio_buffer st) (sample_rate st) = inr text ->
  (exists r h' rest,
      exec (on_text sv st (Parsed data)) h = (r, h', MsgTranscript text :: rest))
  /\ (blank text = true ->
      exec (on_text sv st (Parsed data)) h
      = (Returned (Session [] (sample_rate st)), h,
         [MsgTranscript text; MsgError "Could not transcribe audio"])).
Proof.
  intros Htype Hbuf Htr. rewrite (on_text_end_audio sv st data Htype).
  unfold end_audio. destruct (audio_buffer st) as [|b bs] eqn:Eb; [congruence|].
  rewrite Htr. cbn [call bind send exec]. split.
  - match goal with
    | |- context [exec ?p h] => destruct (exec p h) as [[r h'] rest]
    end.
    now exists r, h', rest.
  - intros Hblank.
    assert (Hempty : text = "").
    { unfold transcribe_audio in Htr.
      destruct (whisper_load sv); [discriminate|].
      destruct (frombuffer_int16 (b :: bs)); [|discriminate].
      destruct (whisper sv l); [discriminate|].
      injection Htr as <-. now apply strip_blank_empty. }
    subst text. reflexivity.
Qed.

Lemma C7_transcript_then_abort_on_no_text_witness :
  Json.get (JObj [("type", JStr "end_audio")]) "type" JNull
  = Some (JStr "end_audio")
  /\ audio_buffer Demo.recorded <> []
  /\ transcribe_audio Demo.sv_quiet (audio_buffer Demo.recorded)
       (sample_rate Demo.recorded) = inr ""
  /\ exec (on_text Demo.sv_quiet Demo.recorded end_audio_frame) [system_turn]
     = (Returned (Session [] (JNum 16000)), [system_turn],
        [MsgTranscript ""; MsgError "Could not transcribe audio"]).
Proof.
  split; [reflexivity|]. split; [discriminate|]. split; [reflexivity|].
  refine (proj2 (C7_transcript_then_abort_on_no_text Demo.sv_quiet Demo.recorded
                   [system_turn] (JObj [("type", JStr "end_audio")]) ""
                   eq_refl _ eq_refl) eq_refl).
  discriminate.
Defined.

Lemma leave_not_listening (e : exn) (st : session) : leave e <> Listening st.
Proof. destruct e; discriminate. Qed.

(** C5 (as amended): if the Responder stream or the Synthesizer fails after
    the user turn has been appended, the exception leaves the message loop:
    no [error] and no [done] message is sent, no later message of the
    connection is handled, and the assistant turn is appended only if the
    Responder stream had been read to its end, with the whole reply; when
    the Responder fails the transcript ends with the user turn. *)
Theorem C5_failure_leaves_the_loop (sv : services) (st : session)
    (h : list turn) (text : string) (e : exn) (h' : list turn)
    (out : list server_msg) :
  audio_buffer st <> [] ->
  transcribe_audio sv (audio_buffer st) (sample_rate st) = inr text ->
  PyStr.truthy text = true ->
  exec (on_text sv st end_audio_frame) h = (Raised e, h', out) ->
  (forall m, In m out -> is_error m = false /\ is_done m = false)
  /\ (forall more,
        serve sv st h (Text end_audio_frame :: more) = (leave e, h', out)
        /\ forall st', leave e <> Listening st')
  /\ (h' = h ++ [Turn User text]
      \/ exists lines,
           ollama sv (h ++ [Turn User text]) = (lines, None)
           /\ h' = h ++ [Turn User text; Turn Assistant (cat (deltas lines))])
  /\ (snd (ollama sv (h ++ [Turn User text])) <> None ->
      h' = h ++ [Turn User text]).
Proof.
  intros Hbuf Htr Htext Hex.
  pose proof (end_audio_exec sv st h text Hbuf Htr Htext) as H.
  change (on_text sv st end_audio_frame) with (end_audio sv st) in Hex.
  rewrite Hex in H. destruct H as (Hout & Hh & Hfail).
  split; [|split; [|split; assumption]].
  - intros m Hm. rewrite Forall_forall in Hout. specialize (Hout m Hm).
    destruct m as [t|t [|]|d r| |msg|]; simpl in Hout; try contradiction;
      now split.
  - intros more. split; [|apply leave_not_listening].
    cbn [serve].
    change (on_text sv st end_audio_frame) with (end_audio sv st).
    now rewrite Hex.
Qed.

Lemma C5_failure_leaves_the_loop_witness :
  audio_buffer Demo.recorded <> []
  /\ transcribe_audio Demo.sv_broken (audio_buffer Demo.recorded)
       (sample_rate Demo.recorded) = inr "Hello there."
  /\ exec (on_text Demo.sv_broken Demo.recorded end_audio_frame) [system_turn]
     = (Raised (ServiceError "httpx.ReadError"),
        [system_turn; Turn User "Hello there."],
        [MsgTranscript "Hello there."; MsgResponseText "Nice to" false])
  /\ serve Demo.sv_broken Demo.recorded [system_turn]
       [Text end_audio_frame; Text clear_history_frame]
     = (Failed (ServiceError "httpx.ReadError"),
        [system_turn; Turn User "Hello there."],
        [MsgTranscript "Hello there."; MsgResponseText "Nice to" false]).
Proof.
  assert (Hbuf : audio_buffer Demo.recorded <> []) by discriminate.
  assert (Hex : exec (on_text Demo.sv_broken Demo.recorded end_audio_frame)
                  [system_turn]
                = (Raised (ServiceError "httpx.ReadError"),
                   [system_turn; Turn User "Hello there."],
                   [MsgTranscript "Hello there."; MsgResponseText "Nice to" false]))
    by reflexivity.
  split; [exact Hbuf|]. split; [reflexivity|]. split; [exact Hex|].
  destruct (C5_failure_leaves_the_loop Demo.sv_broken Demo.recorded
              [system_turn] "Hello there." _ _ _ Hbuf eq_refl eq_refl Hex)
    as (_ & Hloop & _).
  exact (proj1 (Hloop [Text clear_history_frame])).
Defined.

(** C5 (as stated) fails: when the chat stream breaks after its first
    chunk, the pass raises; the transcript ends with the user turn, no
    [error] message is sent, and the handler does not go on. *)
Lemma C5_no_recovery_after_failure :
  exec (on_text Demo.sv_broken Demo.recorded end_audio_frame) [system_turn]
  = (Raised (ServiceError "httpx.ReadError"),
     [system_turn; Turn User "Hello there."],
     [MsgTranscript "Hello there."; MsgResponseText "Nice to" false])
  /\ ~ Claimed.recovers
       (exec (on_text Demo.sv_broken Demo.recorded end_audio_frame) [system_turn])
       [system_turn] "Hello there.".
Proof.
  split; [reflexivity|].
  intros (st & partial & sent_before & message & H).
  apply (f_equal (fun r => fst (fst r))) in H. vm_compute in H. discriminate.
Qed.

(** The same holds when the voice fails on the first sentence: the text
    deltas were sent, no audio, no [error]; the transcript ends with the
    user turn. *)
Example synthesizer_failure_leaves_the_loop :
  serve Demo.sv_mute Demo.recorded [system_turn]
    [Text end_audio_frame; Text clear_history_frame]
  = (Failed (ServiceError "piper"),
     [system_turn; Turn User "Hello there."],
     [MsgTranscript "Hello there."; MsgResponseText "Nice to" false;
      MsgResponseText " meet you." false]).
Proof. reflexivity. Qed.

(** C6: a text frame that is not well-formed JSON makes [json.loads] raise
    an exception that the handler does not catch: the loop is left, no
    message is sent, and the frames behind it are never handled.  A
    malformed line of the chat response, in contrast, is skipped. *)
Theorem C6_malformed_frame_ends_the_handler (sv : services) (st : session)
    (h : list turn) (raw : string) (more : list received) :
  serve sv st h (Text (Malformed raw) :: more) = (Failed JSONDecodeError, h, [])
  /\ (forall (S : Type) (lines : list line) (full_response : string)
        (body : S -> string -> prog S) (s : S),
        aiter_lines (LineMalformed :: lines) full_response body s
        = aiter_lines lines full_response body s).
Proof. split; reflexivity. Qed.

(** ** Arrivals and task steps *)

Lemma play_app (sv : services) (s1 s2 : list event) (w : list turn * conn) :
  play sv (s1 ++ s2) w = play sv s2 (play sv s1 w).
Proof. unfold play. apply fold_left_app. Qed.

(** A task step does not change what the connection comes to, whatever
    frames are still to join the inbox. *)
Lemma settle_deliver_step (sv : services) (rx : list received)
    (h : list turn) (c : conn) :
  settle sv (deliver rx (step sv h c)) = settle sv (deliver rx (h, c)).
Proof.
  destruct c as [[p|s] ib ob]; unfold step, deliver, settle; simpl.
  - destruct p as [st|e|m k|k|h1 k|t k]; simpl.
    + now destruct (serve sv st h (ib ++ rx)) as [[s h'] out].
    + rewrite app_nil_r. now destruct e.
    + destruct (exec k h) as [[[st|e] h1] out1].
      * destruct (serve sv st h1 (ib ++ rx)) as [[s h'] out].
        now rewrite <- !app_assoc.
      * now rewrite <- app_assoc.
    + reflexivity.
    + reflexivity.
    + reflexivity.
  - destruct s as [st| |e]; try reflexivity.
    destruct ib as [|[|f] q]; simpl; try reflexivity.
    + now rewrite app_nil_r.
    + destruct (exec (on_text sv st f) h) as [[[st1|e] h1] out1]; [|reflexivity].
      now destruct (serve sv st1 h1 (q ++ rx)) as [[s h'] out].
Qed.

(** Under any schedule the connection comes to what it would come to had
    the frames all arrived at once, in the same order. *)
Lemma settle_play (sv : services) (sched : list event) (w : list turn * conn) :
  settle sv (play sv sched w) = settle sv (deliver (arrivals sched) w).
Proof.
  revert w. induction sched as [|ev sched IH]; intros [h c].
  - unfold deliver; simpl. rewrite app_nil_r. now destruct c.
  - change (play sv (ev :: sched) (h, c)) with (play sv sched (play1 sv ev (h, c))).
    rewrite IH. destruct ev as [r|]; simpl.
    + unfold deliver, arrive; simpl. now rewrite <- app_assoc.
    + apply settle_deliver_step.
Qed.

Lemma settle_connect (sv : services) (h0 : list turn) (rx : list received) :
  settle sv (deliver rx (h0, connect)) = websocket_endpoint sv h0 rx.
Proof.
  unfold deliver, settle, websocket_endpoint; simpl.
  now destruct (serve sv fresh [system_turn] rx) as [[s h] out].
Qed.

Lemma play_runs_S (sv : services) (n : nat) (h : list turn) (c : conn) :
  play sv (repeat Runs (S n)) (h, c) = play sv (repeat Runs n) (step sv h c).
Proof. reflexivity. Qed.

Lemma play_runs_add (sv : services) (n m : nat) (w : list turn * conn) :
  play sv (repeat Runs (n + m)) w
  = play sv (repeat Runs m) (play sv (repeat Runs n) w).
Proof. now rewrite repeat_app, play_app. Qed.

(** The rest of a pass runs to its end in finitely many steps, without
    touching the inbox. *)
Lemma run_handler (sv : services) (p : prog session) (h : list turn)
    (ib : list received) (ob : list server_msg) :
  exists n,
    play sv (repeat Runs n) (h, Conn (Handling p) ib ob)
    = (let '(r, h1, out1) := exec p h in
       (h1, Conn (At (match r with
                      | Returned st => Listening st
                      | Raised e => leave e
                      end)) ib (ob ++ out1))).
Proof.
  revert h ob. induction p as [st|e|m k IH|k IH|h1 k IH|t k IH]; intros h ob.
  - exists 1%nat. simpl. now rewrite app_nil_r.
  - exists 1%nat. simpl. now rewrite app_nil_r.
  - destruct (IH h (ob ++ [m])) as [n Hn]. exists (S n).
    rewrite play_runs_S. unfold step; cbn [conn_pc inbox outbox]. rewrite Hn. simpl.
    destruct (exec k h) as [[r h1] out1]. now rewrite <- app_assoc.
  - destruct (IH h h ob) as [n Hn]. exists (S n).
    rewrite play_runs_S. exact Hn.
  - destruct (IH h1 ob) as [n Hn]. exists (S n).
    rewrite play_runs_S. exact Hn.
  - destruct (IH (h ++ [t]) ob) as [n Hn]. exists (S n).
    rewrite play_runs_S. exact Hn.
Qed.

(** A listening task works through its inbox in finitely many steps. *)
Lemma run_loop (sv : services) (rx : list received) (st : session)
    (h : list turn) (ob : list server_msg) :
  exists n c,
    at_rest c (fst (fst (serve sv st h rx)))
    /\ play sv (repeat Runs n) (h, Conn (At (Listening st)) rx ob)
       = (snd (fst (serve sv st h rx)), c)
    /\ outbox c = ob ++ snd (serve sv st h rx).
Proof.
  revert st h ob. induction rx as [|r q IH]; intros st h ob.
  - exists 0%nat, (Conn (At (Listening st)) [] ob). simpl.
    rewrite app_nil_r. repeat split.
  - destruct r as [|f].
    + exists 1%nat, (Conn (At Ended) q ob). simpl. rewrite app_nil_r.
      repeat split. discriminate.
    + destruct (run_handler sv (on_text sv st f) h q ob) as [n1 Hn1].
      simpl serve.
      destruct (exec (on_text sv st f) h) as [[[st1|e] h1] out1].
      * destruct (IH st1 h1 (ob ++ out1)) as (n2 & c & Hrest & Hplay & Hout).
        exists (S (n1 + n2)), c. rewrite play_runs_S. unfold step; cbn [conn_pc inbox outbox].
        rewrite play_runs_add, Hn1, Hplay.
        destruct (serve sv st1 h1 q) as [[s h2] out2]; simpl in *.
        rewrite Hout, <- app_assoc. repeat split; apply Hrest.
      * exists (S n1), (Conn (At (leave e)) q (ob ++ out1)).
        rewrite play_runs_S. unfold step; cbn [conn_pc inbox outbox]. rewrite Hn1. simpl.
        repeat split. intros st' H. now apply leave_not_listening in H.
Qed.

(** Left to run, a connection comes to rest at what [settle] gives. *)
Lemma run_to_rest (sv : services) (w : list turn * conn) :
  exists n s,
    at_rest (snd (play sv (repeat Runs n) w)) s
    /\ settle sv w
       = (s, fst (play sv (repeat Runs n) w), outbox (snd (play sv (repeat Runs n) w))).
Proof.
  destruct w as [h [[p|s] ib ob]].
  - destruct (run_handler sv p h ib ob) as [n1 Hn1].
    unfold settle; simpl.
    destruct (exec p h) as [[[st|e] h1] out1].
    + destruct (run_loop sv ib st h1 (ob ++ out1)) as (n2 & c & Hrest & Hplay & Hout).
      exists (n1 + n2)%nat, (fst (fst (serve sv st h1 ib))).
      rewrite play_runs_add, Hn1, Hplay. simpl. rewrite Hout.
      destruct (serve sv st h1 ib) as [[s h2] out2]; simpl in *.
      now rewrite <- app_assoc.
    + exists n1, (leave e). rewrite Hn1. simpl. split; [|reflexivity].
      split; [reflexivity|]. intros st H. now apply leave_not_listening in H.
  - destruct s as [st| |e].
    + destruct (run_loop sv ib st h ob) as (n & c & Hrest & Hplay & Hout).
      exists n, (fst (fst (serve sv st h ib))). rewrite Hplay.
      unfold settle; simpl. rewrite Hout.
      now destruct (serve sv st h ib) as [[s h2] out2].
    + exists 0%nat, Ended. simpl. repeat split. discriminate.
    + exists 0%nat, (Failed e). simpl. repeat split. discriminate.
Qed.

(** Whatever the schedule, the connection comes to rest, and at what the
    loop gives on the frames in arrival order. *)
Lemma sequential (sv : services) (sched : list event) (w : list turn * conn) :
  exists n s,
    at_rest (snd (play sv (sched ++ repeat Runs n) w)) s
    /\ settle sv (deliver (arrivals sched) w)
       = (s, fst (play sv (sched ++ repeat Runs n) w),
          outbox (snd (play sv (sched ++ repeat Runs n) w))).
Proof.
  destruct (run_to_rest sv (play sv sched w)) as (n & s & Hrest & Hsettle).
  exists n, s. rewrite play_app. split; [exact Hrest|].
  now rewrite <- settle_play.
Qed.

(** A pass over [end_audio] that returns leaves the audio buffer empty. *)
Lemma end_audio_clears (sv : services) (st0 st : session) (h h1 : list turn)
    (out1 : list server_msg) :
  exec (end_audio sv st0) h = (Returned st, h1, out1) ->
  audio_buffer st = [].
Proof.
  intros Hex.
  destruct (audio_buffer st0) as [|b bs] eqn:Eb.
  { unfold end_audio in Hex. rewrite Eb in Hex. simpl in Hex.
    injection Hex as <- _ _. exact Eb. }
  destruct (transcribe_audio sv (audio_buffer st0) (sample_rate st0))
    as [e|text] eqn:Etr.
  { unfold end_audio in Hex. rewrite Eb in Hex. rewrite <- Eb, Etr in Hex.
    discriminate. }
  destruct (PyStr.truthy text) eqn:Etext.
  - assert (Hbuf : audio_buffer st0 <> []) by (rewrite Eb; discriminate).
    pose proof (end_audio_exec sv st0 h text Hbuf Etr Etext) as H.
    rewrite Hex in H. destruct H as (-> & _). reflexivity.
  - unfold end_audio in Hex. rewrite Eb in Hex. rewrite <- Eb, Etr in Hex.
    cbn [call bind send exec] in Hex. rewrite Etext in Hex. simpl in Hex.
    injection Hex as <- _ _. reflexivity.
Qed.

(** C10: the frames of a connection take effect one at a time and in
    arrival order, whenever they arrive: under every schedule of arrivals
    and task steps the connection comes to rest in the state, and with the
    messages, of the loop run on the frames in arrival order.  So a
    [clear_history] that arrives at any moment of a turn is applied after
    the turn is over, assistant turn included, and audio that arrives at any
    moment of a turn is all the next turn's buffer holds. *)
Theorem C10_frames_take_effect_in_arrival_order (sv : services) :
  (forall h0 sched,
      exists n s,
        at_rest (snd (play sv (sched ++ repeat Runs n) (h0, connect))) s
        /\ websocket_endpoint sv h0 (arrivals sched)
           = (s, fst (play sv (sched ++ repeat Runs n) (h0, connect)),
              outbox (snd (play sv (sched ++ repeat Runs n) (h0, connect)))))
  /\ (forall st0 h ob st h1 out1 mid,
        exec (on_text sv st0 end_audio_frame) h = (Returned st, h1, out1) ->
        arrivals mid = [Text clear_history_frame] ->
        exists n c,
          play sv (mid ++ repeat Runs n)
            (h, Conn (At (Listening st0)) [Text end_audio_frame] ob)
          = ([system_turn], c)
          /\ at_rest c (Listening st)
          /\ outbox c = ob ++ out1 ++ [MsgHistoryCleared])
  /\ (forall st0 h ob st h1 out1 mid data chunk,
        exec (on_text sv st0 end_audio_frame) h = (Returned st, h1, out1) ->
        arrivals mid = [Text (audio_frame data)] ->
        b64decode sv (JStr data) = inr chunk ->
        exists n c,
          play sv (mid ++ repeat Runs n)
            (h, Conn (At (Listening st0)) [Text end_audio_frame] ob)
          = (h1, c)
          /\ at_rest c (Listening (Session chunk (JNum 16000)))
          /\ outbox c = ob ++ out1).
Proof.
  split; [|split].
  - intros h0 sched.
    destruct (sequential sv sched (h0, connect)) as (n & s & Hrest & Hsettle).
    exists n, s. split; [exact Hrest|]. now rewrite <- settle_connect.
  - intros st0 h ob st h1 out1 mid Hex Hmid.
    destruct (sequential sv mid (h, Conn (At (Listening st0)) [Text end_audio_frame] ob))
      as (n & s & Hrest & Hsettle).
    rewrite Hmid in Hsettle. unfold deliver, settle in Hsettle.
    cbn [fst snd conn_pc inbox outbox app serve] in Hsettle.
    rewrite Hex in Hsettle. cbn in Hsettle.
    destruct (play sv (mid ++ repeat Runs n)
                (h, Conn (At (Listening st0)) [Text end_audio_frame] ob))
      as [h2 c] eqn:Hplay. simpl in *.
    injection Hsettle as <- <- Hout. exists n, c.
    split; [exact Hplay|]. split; [exact Hrest | now symmetry].
  - intros st0 h ob st h1 out1 mid data chunk Hex Hmid Hdec.
    destruct (sequential sv mid (h, Conn (At (Listening st0)) [Text end_audio_frame] ob))
      as (n & s & Hrest & Hsettle).
    rewrite Hmid in Hsettle. unfold deliver, settle in Hsettle.
    cbn [fst snd conn_pc inbox outbox app serve] in Hsettle.
    rewrite Hex in Hsettle.
    change (on_text sv st0 end_audio_frame) with (end_audio sv st0) in Hex.
    apply end_audio_clears in Hex.
    cbn in Hsettle. rewrite Hdec in Hsettle. cbn in Hsettle.
    rewrite Hex in Hsettle. cbn in Hsettle.
    destruct (play sv (mid ++ repeat Runs n)
                (h, Conn (At (Listening st0)) [Text end_audio_frame] ob))
      as [h2 c] eqn:Hplay. simpl in *.
    injection Hsettle as <- <- Hout. exists n, c. rewrite ?app_nil_r in Hout.
    split; [exact Hplay|]. split; [exact Hrest | now symmetry].
Qed.

Lemma C10_frames_take_effect_in_arrival_order_witness :
  let mid := [Runs; Runs; Runs; Arrives (Text clear_history_frame); Runs] in
  let out1 := [MsgTranscript "Hello there."; MsgResponseText "Nice to" false;
               MsgResponseText " meet you." false; MsgAudio "AAA=" 22050;
               MsgResponseText "" true; MsgDone] in
  exec (on_text Demo.sv Demo.recorded end_audio_frame) [system_turn]
  = (Returned (Session [] (JNum 16000)),
     [system_turn; Turn User "Hello there."; Turn Assistant "Nice to meet you."],
     out1)
  /\ arrivals mid = [Text clear_history_frame]
  /\ exists n c,
       play Demo.sv (mid ++ repeat Runs n)
         ([system_turn],
          Conn (At (Listening Demo.recorded)) [Text end_audio_frame] [])
       = ([system_turn], c)
       /\ at_rest c (Listening (Session [] (JNum 16000)))
       /\ outbox c = [] ++ out1 ++ [MsgHistoryCleared].
Proof.
  cbv zeta. split; [reflexivity|]. split; [reflexivity|].
  destruct (C10_frames_take_effect_in_arrival_order Demo.sv) as (_ & Hclear & _).
  apply (Hclear Demo.recorded [system_turn] [] (Session [] (JNum 16000))
           [system_turn; Turn User "Hello there."; Turn Assistant "Nice to meet you."]);
    reflexivity.
Defined.

(** In the schedule of the witness the [clear_history] frame arrives while
    the turn is under way: the user turn is in the history and the request
    has not been made. *)
Example clear_history_arrives_mid_turn :
  let w := play Demo.sv [Runs; Runs; Runs]
             ([system_turn],
              Conn (At (Listening Demo.recorded)) [Text end_audio_frame] []) in
  fst w = [system_turn; Turn User "Hello there."]
  /\ outbox (snd w) = [MsgTranscript "Hello there."]
  /\ match conn_pc (snd w) with Handling (History _) => True | _ => False end.
Proof. repeat split. Qed.

(** ** Two connections *)

(** C1: the conversation transcript is one list for the whole process.  A
    first client has two turns; when a second client connects in between
    and sends nothing, the transcript of the first is reset, and the first
    client is sent a different reply on the same frames. *)
Theorem C1_connections_share_the_transcript :
  events_of ConnA Demo.visited = Demo.alone
  /\ sent ConnA (play2 Demo.sv Demo.alone boot)
     = [MsgTranscript "Hello there."; MsgResponseText "Nice to" false;
        MsgResponseText " meet you." false; MsgAudio "AAA=" 22050;
        MsgResponseText "" true; MsgDone;
        MsgTranscript "Hello there."; MsgResponseText "Welcome back." false;
        MsgAudio "AAA=" 22050; MsgResponseText "" true; MsgDone]
  /\ sent ConnA (play2 Demo.sv Demo.visited boot)
     = [MsgTranscript "Hello there."; MsgResponseText "Nice to" false;
        MsgResponseText " meet you." false; MsgAudio "AAA=" 22050;
        MsgResponseText "" true; MsgDone;
        MsgTranscript "Hello there."; MsgResponseText "Nice to" false;
        MsgResponseText " meet you." false; MsgAudio "AAA=" 22050;
        MsgResponseText "" true; MsgDone]
  /\ conversation_history (play2 Demo.sv Demo.alone boot)
     = [system_turn;
        Turn User "Hello there."; Turn Assistant "Nice to meet you.";
        Turn User "Hello there."; Turn Assistant "Welcome back."]
  /\ conversation_history (play2 Demo.sv Demo.visited boot)
     = [system_turn;
        Turn User "Hello there."; Turn Assistant "Nice to meet you."].
Proof. repeat split; vm_compute; reflexivity. Qed.

(** C9: the count of turns fails on the shared transcript.  In the
    schedule where a second client connects between the two turns of the
    first and sends nothing, the first client's handler is at rest and
    listening, it has completed two turns, no [clear_history] was sent on
    either connection, and the transcript holds three turns, not the five
    that one system turn and two user/assistant pairs make. *)
Theorem C9_second_client_breaks_the_count :
  let s := play2 Demo.sv Demo.visited boot in
  option_map conn_pc (conn_a s) = Some (At (Listening (Session [] (JNum 16000))))
  /\ option_map inbox (conn_a s) = Some []
  /\ turns_since_clear (sent ConnA s) = 2%nat
  /\ ~ In MsgHistoryCleared (sent ConnA s)
  /\ sent ConnB s = []
  /\ arrivals (flat_map (fun ev => match ev with
                                   | On ConnB e => [e]
                                   | _ => []
                                   end) Demo.visited) = []
  /\ conversation_history s
     = [system_turn; Turn User "Hello there."; Turn Assistant "Nice to meet you."]
  /\ List.length (conversation_history s) <> (1 + 2 * turns_since_clear (sent ConnA s))%nat.
Proof.
  cbv zeta. repeat split; try (vm_compute; reflexivity).
  - vm_compute. intros H. repeat (destruct H as [H|H]; [discriminate|]).
    exact H.
  - vm_compute. discriminate.
Qed.

(** * Further properties of the code *)

(** ** Trimming *)

Lemma rstrip_keeps_last (p : string) (c : ascii) :
  is_space c = false -> rstrip (p +++ String c "") = p +++ String c "".
Proof.
  intros Hc. induction p as [|a p IH]; simpl.
  - now rewrite Hc.
  - rewrite IH. now destruct (p +++ String c "") eqn:E; [destruct p; discriminate|].
Qed.

Lemma lstrip_keeps_last (p : string) (c : ascii) :
  is_space c = false -> exists q, lstrip (p +++ String c "") = q +++ String c "".
Proof.
  intros Hc. induction p as [|a p [q IH]]; simpl.
  - rewrite Hc. now exists "".
  - destruct (is_space a); [now exists q | now exists (String a p)].
Qed.

Lemma strip_keeps_last (p : string) (c : ascii) :
  is_space c = false -> exists q, strip (p +++ String c "") = q +++ String c "".
Proof.
  intros Hc. unfold strip. destruct (lstrip_keeps_last p c Hc) as [q ->].
  exists q. now apply rstrip_keeps_last.
Qed.

Lemma lstrip_head (s : string) :
  lstrip s = "" \/ exists a t, lstrip s = String a t /\ is_space a = false.
Proof.
  induction s as [|a s IH]; simpl; [now left|].
  destruct (is_space a) eqn:Ha; [exact IH|]. right. now exists a, s.
Qed.

Lemma strip_idempotent (s : string) : strip (strip s) = strip s.
Proof.
  unfold strip.
  assert (Hl : lstrip (rstrip (lstrip s)) = rstrip (lstrip s)).
  { destruct (lstrip_head s) as [-> | (a & t & -> & Ha)]; [reflexivity|].
    simpl. destruct (rstrip t); rewrite ?Ha; simpl; now rewrite Ha. }
  rewrite Hl.
  destruct (rstrip_last (lstrip s)) as [-> | (p & c & -> & Hc)]; [reflexivity|].
  now apply rstrip_keeps_last.
Qed.

Lemma ender_not_space (e : ascii) : In e sentence_enders -> is_space e = false.
Proof. intros [<-|[<-|[<-|[]]]]; reflexivity. Qed.

Lemma contains_suffix (c : ascii) (s t : string) :
  contains c (s +++ t) = false -> contains c t = false.
Proof.
  rewrite contains_append. intros H. now apply orb_false_iff in H.
Qed.

(** ** The segmenter, further *)

(** X1: a Sentence is emitted for a delta exactly when the buffer with
    that delta holds one of '.', '!', '?'; the Sentence is then not empty,
    has no white space at either end and ends with one of the three
    characters. *)
Theorem X1_emitted_sentence_is_well_formed (sentence_buffer chunk : string) :
  (fst (feed sentence_buffer chunk) <> None
   <-> exists e, In e sentence_enders
                 /\ contains e (sentence_buffer +++ chunk) = true)
  /\ (forall sentence,
        fst (feed sentence_buffer chunk) = Some sentence ->
        sentence <> ""
        /\ strip sentence = sentence
        /\ exists e, In e sentence_enders /\ ends_with e sentence).
Proof.
  destruct (feed_cases sentence_buffer chunk) as [[Hc Hf] | (span & rest & Hc & Hf)];
    rewrite Hf; simpl.
  - split.
    + split; [congruence|]. intros (e & Hin & He).
      rewrite cut_none in Hc. rewrite (Hc e Hin) in He. discriminate.
    + discriminate.
  - destruct (cut_some _ _ _ _ Hc) as (pre & e & post & Hen & _ & He & _ & [p Hp] & _).
    assert (Hin : In e sentence_enders).
    { rewrite Hen. apply in_or_app. right. now left. }
    destruct (strip_keeps_last p e (ender_not_space e Hin)) as [q Hq].
    assert (Hne : strip span <> "").
    { rewrite Hp, Hq. destruct q; discriminate. }
    assert (Ht : PyStr.truthy (strip span) = true).
    { destruct (strip span); [congruence | reflexivity]. }
    rewrite Ht. split.
    + split; [intros _; now exists e | discriminate].
    + intros sentence [= <-]. split; [exact Hne|].
      split; [apply strip_idempotent|].
      exists e. split; [exact Hin|]. exists q. now rewrite Hp.
Qed.

Lemma X1_emitted_sentence_is_well_formed_witness :
  fst (feed "  Well" " then! Next") = Some "Well then!"
  /\ "Well then!" <> ""
  /\ strip "Well then!" = "Well then!"
  /\ exists e, In e sentence_enders /\ ends_with e "Well then!".
Proof.
  split; [reflexivity|].
  exact (proj2 (X1_emitted_sentence_is_well_formed "  Well" " then! Next")
           "Well then!" eq_refl).
Defined.

(** X2: after a delta has been processed the sentence buffer holds no full
    stop: text up to the last full stop never waits for a later delta. *)
Theorem X2_no_full_stop_is_left_waiting (sentence_buffer chunk : string) :
  contains "." (snd (feed sentence_buffer chunk)) = false.
Proof.
  destruct (feed_cases sentence_buffer chunk) as [[Hc Hf] | (span & rest & Hc & Hf)];
    rewrite Hf; simpl.
  - rewrite cut_none in Hc. apply Hc. now left.
  - destruct (cut_some _ _ _ _ Hc) as (pre & e & post & Hen & Hpre & _ & Hs & _ & Hr).
    destruct pre as [|e0 pre].
    + injection Hen as <- _. exact Hr.
    + injection Hen as <- _. apply (contains_suffix _ span). rewrite <- Hs.
      apply Hpre. now left.
Qed.

(** ** Transcription *)

Lemma int16_range (lo hi : byte) : is_int16 (int16 lo hi).
Proof.
  unfold is_int16, int16.
  pose proof (Byte.to_N_bounded lo). pose proof (Byte.to_N_bounded hi).
  destruct (_ <? 32768)%Z eqn:E;
    [apply Z.ltb_lt in E | apply Z.ltb_ge in E]; lia.
Qed.

Lemma frombuffer_int16_pairs (audio_data : list byte) :
  (forall result, result = frombuffer_int16 audio_data ->
     match result with
     | None => Nat.odd (List.length audio_data) = true
     | Some samples =>
         List.length audio_data = (2 * List.length samples)%nat
         /\ Forall is_int16 samples
     end)
  /\ (forall x result, result = frombuffer_int16 (x :: audio_data) ->
     match result with
     | None => Nat.odd (List.length (x :: audio_data)) = true
     | Some samples =>
         List.length (x :: audio_data) = (2 * List.length samples)%nat
         /\ Forall is_int16 samples
     end).
Proof.
  induction audio_data as [|hi rest [IH0 IH1]].
  - split; intros; subst; simpl; auto.
  - split; [intros result; apply IH1|].
    intros lo result ->. cbn [frombuffer_int16].
    specialize (IH0 _ eq_refl). destruct (frombuffer_int16 rest) as [samples|].
    + destruct IH0 as [Hlen Hall]. split.
      * simpl in *. lia.
      * constructor; [apply int16_range | exact Hall].
    + change (List.length (lo :: hi :: rest)) with (S (S (List.length rest))).
      now rewrite Nat.odd_succ_succ.
Qed.

(** X3: [np.frombuffer] splits the audio into 16-bit samples: a buffer of
    odd size is refused, and a buffer of even size gives half as many
    samples as bytes, each within -32768..32767. *)
Theorem X3_samples_of_the_audio (audio_data : list byte) :
  match frombuffer_int16 audio_data with
  | None => Nat.odd (List.length audio_data) = true
  | Some samples =>
      List.length audio_data = (2 * List.length samples)%nat
      /\ Forall is_int16 samples
  end.
Proof. exact (proj1 (frombuffer_int16_pairs audio_data) _ eq_refl). Qed.

Lemma frombuffer_int16_odd (audio_data : list byte) :
  Nat.odd (List.length audio_data) = true -> frombuffer_int16 audio_data = None.
Proof.
  intros Hodd. pose proof (proj1 (frombuffer_int16_pairs audio_data) _ eq_refl) as H.
  destruct (frombuffer_int16 audio_data) as [samples|]; [|reflexivity].
  destruct H as [Hlen _]. rewrite Hlen in Hodd.
  rewrite Nat.odd_mul in Hodd. discriminate.
Qed.

(** X4: an [end_audio] on a buffer with an odd number of bytes raises
    before the model is asked to transcribe: the exception of
    [get_whisper_model()] if the model cannot be loaded, [ValueError] from
    [np.frombuffer] otherwise.  The pass sends nothing, not even an
    [error], and leaves the transcript unchanged; the loop is left, and with
    a model that loads the handler fails with [ValueError]. *)
Theorem X4_odd_audio_ends_the_handler (sv : services) (st : session)
    (h : list turn) (data : json) (more : list received) :
  Json.get data "type" JNull = Some (JStr "end_audio") ->
  Nat.odd (List.length (audio_buffer st)) = true ->
  transcribe_audio sv (audio_buffer st) (sample_rate st)
  = inl (match whisper_load sv with Some e => e | None => ValueError end)
  /\ serve sv st h (Text (Parsed data) :: more)
     = (leave (match whisper_load sv with Some e => e | None => ValueError end),
        h, [])
  /\ (whisper_load sv = None ->
      serve sv st h (Text (Parsed data) :: more) = (Failed ValueError, h, [])).
Proof.
  intros Htype Hodd.
  assert (Htr : transcribe_audio sv (audio_buffer st) (sample_rate st)
                = inl (match whisper_load sv with
                       | Some e => e
                       | None => ValueError
                       end)).
  { unfold transcribe_audio. destruct (whisper_load sv); [reflexivity|].
    now rewrite (frombuffer_int16_odd _ Hodd). }
  assert (Hs : serve sv st h (Text (Parsed data) :: more)
               = (leave (match whisper_load sv with
                         | Some e => e
                         | None => ValueError
                         end), h, [])).
  { cbn [serve]. rewrite (on_text_end_audio sv st data Htype). unfold end_audio.
    destruct (audio_buffer st) as [|b bs] eqn:Eb; [discriminate|].
    now rewrite Htr. }
  split; [exact Htr|]. split; [exact Hs|].
  intros Hload. rewrite Hs, Hload. reflexivity.
Qed.

Lemma X4_odd_audio_ends_the_handler_witness :
  Json.get (JObj [("type", JStr "end_audio")]) "type" JNull
  = Some (JStr "end_audio")
  /\ Nat.odd (List.length (audio_buffer (Session [x00; x01; x02] (JNum 16000)))) = true
  /\ whisper_load Demo.sv = None
  /\ serve Demo.sv (Session [x00; x01; x02] (JNum 16000)) [system_turn]
       [Text end_audio_frame; Text clear_history_frame]
     = (Failed ValueError, [system_turn], [])
  /\ serve Demo.sv_unloadable (Session [x00; x01; x02] (JNum 16000)) [system_turn]
       [Text end_audio_frame; Text clear_history_frame]
     = (Failed (ServiceError "WhisperModel"), [system_turn], []).
Proof.
  split; [reflexivity|]. split; [reflexivity|]. split; [reflexivity|]. split.
  - exact (proj2 (proj2 (X4_odd_audio_ends_the_handler Demo.sv
                           (Session [x00; x01; x02] (JNum 16000)) [system_turn]
                           (JObj [("type", JStr "end_audio")])
                           [Text clear_history_frame] eq_refl eq_refl))
             eq_refl).
  - exact (proj1 (proj2 (X4_odd_audio_ends_the_handler Demo.sv_unloadable
                           (Session [x00; x01; x02] (JNum 16000)) [system_turn]
                           (JObj [("type", JStr "end_audio")])
                           [Text clear_history_frame] eq_refl eq_refl))).
Defined.

(** X5: the text [transcribe_audio] returns has no white space at either
    end, so a transcript that is not empty holds a character that is not
    white space. *)
Theorem X5_transcript_is_trimmed (sv : services) (audio_data : list byte)
    (rate : json) (text : string) :
  transcribe_audio sv audio_data rate = inr text ->
  strip text = text /\ (text <> "" -> blank text = false).
Proof.
  intros Htr. unfold transcribe_audio in Htr.
  destruct (whisper_load sv); [discriminate|].
  destruct (frombuffer_int16 audio_data); [|discriminate].
  destruct (whisper sv l); [discriminate|]. injection Htr as <-.
  split; [apply strip_idempotent|].
  intros Hne. destruct (blank (strip (join " " l0))) eqn:Hb; [|reflexivity].
  now apply strip_blank_empty in Hb.
Qed.

Lemma X5_transcript_is_trimmed_witness :
  transcribe_audio Demo.sv [x00; x00] (JNum 16000) = inr "Hello there."
  /\ strip "Hello there." = "Hello there."
  /\ ("Hello there." <> "" -> blank "Hello there." = false).
Proof.
  split; [reflexivity|].
  exact (X5_transcript_is_trimmed Demo.sv [x00; x00] (JNum 16000)
           "Hello there." eq_refl).
Defined.

(** ** Frames *)

Lemma on_text_audio (sv : services) (st : session) (h : list turn)
    (d : json) (rate : option json) (chunk : list byte) :
  b64decode sv d = inr chunk ->
  exec (on_text sv st (audio_msg d rate)) h
  = (Returned (Session (audio_buffer st ++ chunk)
                 (match rate with Some r => r | None => JNum 16000 end)),
     h, []).
Proof.
  intros Hd. unfold on_text, audio_msg. cbn. rewrite Hd.
  now destruct rate.
Qed.

(** X6: a run of [audio] frames sends nothing and leaves the transcript
    alone; the buffer grows by the decoded payloads in arrival order, and
    the sample rate is that of the last frame, 16000 if that frame names
    none. *)
Theorem X6_audio_frames_accumulate (sv : services) (st : session)
    (h : list turn) (fs : list (json * option json))
    (chunks : list (list byte)) :
  Forall2 (fun f chunk => b64decode sv (fst f) = inr chunk) fs chunks ->
  serve sv st h (map (fun f => Text (audio_msg (fst f) (snd f))) fs)
  = (Listening (Session (audio_buffer st ++ List.concat chunks)
                  (last_rate (sample_rate st) (map snd fs))),
     h, []).
Proof.
  intros Hall. revert st.
  induction Hall as [|[d rate] chunk fs chunks Hd _ IH]; intros st.
  - simpl. rewrite app_nil_r. now destruct st.
  - cbn [map serve fst snd]. rewrite (on_text_audio sv st h d rate chunk Hd).
    rewrite IH. cbn [audio_buffer sample_rate List.concat].
    rewrite <- app_assoc. now destruct rate.
Qed.

Lemma X6_audio_frames_accumulate_witness :
  Forall2 (fun f chunk => b64decode Demo.sv (fst f) = inr chunk)
    [(JStr "AAA=", Some (JNum 48000)); (JStr "AAA=", None)]
    [[x00; x00]; [x00; x00]]
  /\ serve Demo.sv Demo.recorded [system_turn]
       [Text (audio_msg (JStr "AAA=") (Some (JNum 48000)));
        Text (audio_msg (JStr "AAA=") None)]
     = (Listening (Session [x00; x00; x00; x00; x00; x00] (JNum 16000)),
        [system_turn], []).
Proof.
  assert (H : Forall2 (fun f chunk => b64decode Demo.sv (fst f) = inr chunk)
                [(JStr "AAA=", Some (JNum 48000)); (JStr "AAA=", None)]
                [[x00; x00]; [x00; x00]])
    by (repeat constructor).
  split; [exact H|].
  exact (X6_audio_frames_accumulate Demo.sv Demo.recorded [system_turn] _ _ H).
Defined.

(** X7: a frame that is a JSON object and is neither [end_audio] nor
    [clear_history] makes no call of [send_json] and leaves the transcript
    alone, whether its pass returns or raises; if it is not [audio] either,
    be its type unknown, missing or not a string, the pass returns and
    leaves the audio buffer and the sample rate alone. *)
Theorem X7_what_a_frame_can_touch (sv : services) (st : session)
    (h : list turn) (data msg_type : json) :
  Json.get data "type" JNull = Some msg_type ->
  is_str msg_type "end_audio" = false ->
  is_str msg_type "clear_history" = false ->
  snd (fst (exec (on_text sv st (Parsed data)) h)) = h
  /\ snd (exec (on_text sv st (Parsed data)) h) = []
  /\ (is_str msg_type "audio" = false ->
      exec (on_text sv st (Parsed data)) h = (Returned st, h, [])).
Proof.
  intros Htype Hend Hclear. unfold on_text. rewrite Htype, Hend, Hclear.
  destruct (is_str msg_type "audio"); [|now repeat split].
  split; [|split; [|discriminate]].
  - destruct data as [| | | | |fields]; try reflexivity.
    destruct (lookup "data" fields) as [d|]; [|reflexivity].
    now destruct (b64decode sv d).
  - destruct data as [| | | | |fields]; try reflexivity.
    destruct (lookup "data" fields) as [d|]; [|reflexivity].
    now destruct (b64decode sv d).
Qed.

Lemma X7_what_a_frame_can_touch_witness :
  Json.get (JObj [("kind", JStr "audio")]) "type" JNull = Some JNull
  /\ is_str JNull "end_audio" = false
  /\ is_str JNull "clear_history" = false
  /\ exec (on_text Demo.sv Demo.recorded (Parsed (JObj [("kind", JStr "audio")])))
       [system_turn]
     = (Returned Demo.recorded, [system_turn], []).
Proof.
  split; [reflexivity|]. split; [reflexivity|]. split; [reflexivity|].
  exact (proj2 (proj2 (X7_what_a_frame_can_touch Demo.sv Demo.recorded
                         [system_turn] (JObj [("kind", JStr "audio")]) JNull
                         eq_refl eq_refl eq_refl)) eq_refl).
Defined.

(** A pass that raises has sent only messages of a turn under way, and has
    appended at most the turns of that turn. *)
Lemma on_text_raised (sv : services) (st : session) (f : frame)
    (h h' : list turn) (e : exn) (out : list server_msg) :
  exec (on_text sv st f) h = (Raised e, h', out) ->
  Forall in_turn out
  /\ (h' = h
      \/ exists text,
           h' = h ++ [Turn User text]
           \/ exists lines,
                ollama sv (h ++ [Turn User text]) = (lines, None)
                /\ h' = h ++ [Turn User text; Turn Assistant (cat (deltas lines))]).
Proof.
  intros Hex. destruct f as [raw|data].
  { injection Hex as _ <- <-. split; [constructor | now left]. }
  unfold on_text in Hex.
  destruct (Json.get data "type" JNull) as [msg_type|];
    [|injection Hex as _ <- <-; split; [constructor | now left]].
  destruct (is_str msg_type "audio").
  { destruct data as [| | | | |fields];
      try (injection Hex as _ <- <-; split; [constructor | now left]).
    destruct (lookup "data" fields) as [d|];
      [|injection Hex as _ <- <-; split; [constructor | now left]].
    destruct (b64decode sv d) as [e0|chunk]; [|discriminate].
    injection Hex as _ <- <-. split; [constructor | now left]. }
  destruct (is_str msg_type "end_audio").
  - destruct (audio_buffer st) as [|b bs] eqn:Eb.
    { unfold end_audio in Hex. rewrite Eb in Hex. discriminate. }
    destruct (transcribe_audio sv (audio_buffer st) (sample_rate st))
      as [e0|text] eqn:Etr.
    { unfold end_audio in Hex. rewrite Eb in Hex. rewrite <- Eb, Etr in Hex.
      injection Hex as _ <- <-. split; [constructor | now left]. }
    destruct (PyStr.truthy text) eqn:Etext.
    + assert (Hbuf : audio_buffer st <> []) by (rewrite Eb; discriminate).
      pose proof (end_audio_exec sv st h text Hbuf Etr Etext) as H.
      rewrite Hex in H. destruct H as (Hout & Hh & _).
      split; [exact Hout|]. right. exists text.
      destruct Hh as [Hh | Hh]; [now left | now right].
    + unfold end_audio in Hex. rewrite Eb in Hex. rewrite <- Eb, Etr in Hex.
      cbn [call bind send exec] in Hex. rewrite Etext in Hex. discriminate.
  - now destruct (is_str msg_type "clear_history").
Qed.

(** X8: a pass of the loop that raises for a cause other than a failing
    [send_json], that is on a malformed frame, on a frame that is not an
    object, on an [audio] frame whose payload is missing or does not decode,
    or in a turn whose transcription, chat stream or synthesis raises, has
    sent no [error], no [done] and no [history_cleared] message; the
    transcript is as before, or has gained the user turn of the turn, or
    that turn and the assistant turn with the whole reply. *)
Theorem X8_a_raising_pass_reports_nothing (sv : services) (st : session)
    (f : frame) (h h' : list turn) (e : exn) (out : list server_msg) :
  exec (on_text sv st f) h = (Raised e, h', out) ->
  (forall m, In m out ->
     is_error m = false /\ is_done m = false /\ m <> MsgHistoryCleared)
  /\ (h' = h
      \/ exists text,
           h' = h ++ [Turn User text]
           \/ exists lines,
                ollama sv (h ++ [Turn User text]) = (lines, None)
                /\ h' = h ++ [Turn User text; Turn Assistant (cat (deltas lines))]).
Proof.
  intros Hex. destruct (on_text_raised _ _ _ _ _ _ _ Hex) as [Hout Hh].
  split; [|exact Hh].
  intros m Hm. rewrite Forall_forall in Hout. specialize (Hout m Hm).
  destruct m as [t|t [|]|d r| |msg|]; simpl in Hout; try contradiction;
    repeat split; discriminate.
Qed.

Lemma X8_a_raising_pass_reports_nothing_witness :
  exec (on_text Demo.sv_mute Demo.recorded end_audio_frame) [system_turn]
  = (Raised (ServiceError "piper"),
     [system_turn; Turn User "Hello there."],
     [MsgTranscript "Hello there."; MsgResponseText "Nice to" false;
      MsgResponseText " meet you." false])
  /\ (forall m,
        In m [MsgTranscript "Hello there."; MsgResponseText "Nice to" false;
              MsgResponseText " meet you." false] ->
        is_error m = false /\ is_done m = false /\ m <> MsgHistoryCleared).
Proof.
  assert (Hex : exec (on_text Demo.sv_mute Demo.recorded end_audio_frame)
                  [system_turn]
                = (Raised (ServiceError "piper"),
                   [system_turn; Turn User "Hello there."],
                   [MsgTranscript "Hello there."; MsgResponseText "Nice to" false;
                    MsgResponseText " meet you." false]))
    by reflexivity.
  split; [exact Hex|].
  exact (proj1 (X8_a_raising_pass_reports_nothing _ _ _ _ _ _ _ Hex)).
Defined.

(** ** The transcript in every outcome *)

Lemma exchanges_head (sv : services) (h : list turn) (n : nat) :
  exchanges sv h n -> exists rest, h = system_turn :: rest.
Proof.
  induction 1 as [|h n text lines _ [rest ->] _]; [now exists []|].
  now exists (rest ++ [Turn User text; Turn Assistant (cat (deltas lines))]).
Qed.

Lemma serve_shape (sv : services) (rx : list received) (st : session)
    (h h' : list turn) (s : status) (out : list server_msg) (n : nat) :
  serve sv st h rx = (s, h', out) ->
  exchanges sv h n ->
  exists n' h1,
    exchanges sv h1 n'
    /\ (h' = h1 \/ exists text, h' = h1 ++ [Turn User text])
    /\ (forall st', s = Listening st' -> h' = h1).
Proof.
  revert st h n out. induction rx as [|r rx IH]; intros st h n out Hs Hn.
  - simpl in Hs. injection Hs as _ <- _. exists n, h. auto.
  - destruct r as [|f].
    + simpl in Hs. injection Hs as _ <- _. exists n, h. auto.
    + simpl in Hs.
      destruct (exec (on_text sv st f) h) as [[[st1|e] h1] out1] eqn:Hex.
      * destruct (serve sv st1 h1 rx) as [[s2 h2] out2] eqn:Hrest.
        injection Hs as <- <- _.
        eapply IH; [exact Hrest|]. eapply on_text_returned; eassumption.
      * injection Hs as <- <- _.
        destruct (on_text_raised _ _ _ _ _ _ _ Hex)
          as (_ & [-> | (text & [-> | (lines & Hol & ->)])]).
        -- exists n, h. split; [exact Hn|]. split; [now left|].
           intros st' H. now apply leave_not_listening in H.
        -- exists n, h. split; [exact Hn|]. split; [right; now exists text|].
           intros st' H. now apply leave_not_listening in H.
        -- exists (S n), (h ++ [Turn User text; Turn Assistant (cat (deltas lines))]).
           split; [now constructor|]. split; [now left|].
           intros st' H. now apply leave_not_listening in H.
Qed.

(** X9: however the handler of a connection ends or stands, with no other
    connection at work, the transcript starts with the system turn and goes
    on with complete user/assistant exchanges, followed at most by one user
    turn without its reply; a handler that is still listening has left no
    such turn. *)
Theorem X9_transcript_shape_in_every_outcome (sv : services) (h0 : list turn)
    (rx : list received) (s : status) (h : list turn) (out : list server_msg) :
  websocket_endpoint sv h0 rx = (s, h, out) ->
  exists n complete,
    exchanges sv complete n
    /\ (h = complete \/ exists text, h = complete ++ [Turn User text])
    /\ (forall st, s = Listening st -> h = complete)
    /\ exists rest, h = system_turn :: rest.
Proof.
  intros Hw. unfold websocket_endpoint in Hw. simpl in Hw.
  destruct (serve sv fresh [system_turn] rx) as [[s1 h1] out1] eqn:Hs.
  injection Hw as <- <- _.
  destruct (serve_shape sv rx fresh [system_turn] h1 s1 out1 0 Hs
              (exchanges_none sv)) as (n & complete & Hx & Hh & Hl).
  exists n, complete. split; [exact Hx|]. split; [exact Hh|].
  split; [exact Hl|].
  destruct (exchanges_head sv complete n Hx) as [rest ->].
  destruct Hh as [-> | [text ->]]; [now exists rest|].
  now exists (rest ++ [Turn User text]).
Qed.

Lemma X9_transcript_shape_in_every_outcome_witness :
  websocket_endpoint Demo.sv_broken []
    [Text (audio_frame "AAA="); Text end_audio_frame]
  = (Failed (ServiceError "httpx.ReadError"),
     [system_turn; Turn User "Hello there."],
     [MsgTranscript "Hello there."; MsgResponseText "Nice to" false])
  /\ exists n complete,
       exchanges Demo.sv_broken complete n
       /\ ([system_turn; Turn User "Hello there."] = complete
           \/ exists text,
                [system_turn; Turn User "Hello there."]
                = complete ++ [Turn User text]).
Proof.
  assert (E : websocket_endpoint Demo.sv_broken []
                [Text (audio_frame "AAA="); Text end_audio_frame]
              = (Failed (ServiceError "httpx.ReadError"),
                 [system_turn; Turn User "Hello there."],
                 [MsgTranscript "Hello there."; MsgResponseText "Nice to" false]))
    by reflexivity.
  split; [exact E|].
  destruct (X9_transcript_shape_in_every_outcome _ _ _ _ _ _ E)
    as (n & complete & Hx & Hh & _).
  now exists n, complete.
Defined.

(** ** The audio buffer and the sample rate *)

(** X10: a pass over [end_audio] that returns, whether the turn completed,
    was given up for want of a transcript or found no audio, leaves the
    audio buffer empty and the sample rate as it was: no audio is carried
    from one turn into the next. *)
Theorem X10_a_turn_uses_its_audio_up (sv : services) (st st' : session)
    (h h' : list turn) (data : json) (out : list server_msg) :
  Json.get data "type" JNull = Some (JStr "end_audio") ->
  exec (on_text sv st (Parsed data)) h = (Returned st', h', out) ->
  audio_buffer st' = [] /\ sample_rate st' = sample_rate st.
Proof.
  intros Htype Hex. rewrite (on_text_end_audio sv st data Htype) in Hex.
  destruct (audio_buffer st) as [|b bs] eqn:Eb.
  { unfold end_audio in Hex. rewrite Eb in Hex. simpl in Hex.
    injection Hex as <- _ _. now split. }
  destruct (transcribe_audio sv (audio_buffer st) (sample_rate st))
    as [e|text] eqn:Etr.
  { unfold end_audio in Hex. rewrite Eb in Hex. rewrite <- Eb, Etr in Hex.
    discriminate. }
  destruct (PyStr.truthy text) eqn:Etext.
  - assert (Hbuf : audio_buffer st <> []) by (rewrite Eb; discriminate).
    pose proof (end_audio_exec sv st h text Hbuf Etr Etext) as H.
    rewrite Hex in H. destruct H as (-> & _). now split.
  - unfold end_audio in Hex. rewrite Eb in Hex. rewrite <- Eb, Etr in Hex.
    cbn [call bind send exec] in Hex. rewrite Etext in Hex. simpl in Hex.
    injection Hex as <- _ _. now split.
Qed.

Lemma X10_a_turn_uses_its_audio_up_witness :
  exec (on_text Demo.sv (Session [x00; x00] (JNum 48000)) end_audio_frame)
    [system_turn]
  = (Returned (Session [] (JNum 48000)),
     [system_turn; Turn User "Hello there."; Turn Assistant "Nice to meet you."],
     [MsgTranscript "Hello there."; MsgResponseText "Nice to" false;
      MsgResponseText " meet you." false; MsgAudio "AAA=" 22050;
      MsgResponseText "" true; MsgDone])
  /\ audio_buffer (Session [] (JNum 48000)) = []
  /\ sample_rate (Session [] (JNum 48000)) = JNum 48000.
Proof.
  assert (E : exec (on_text Demo.sv (Session [x00; x00] (JNum 48000))
                      end_audio_frame) [system_turn]
              = (Returned (Session [] (JNum 48000)),
                 [system_turn; Turn User "Hello there.";
                  Turn Assistant "Nice to meet you."],
                 [MsgTranscript "Hello there."; MsgResponseText "Nice to" false;
                  MsgResponseText " meet you." false; MsgAudio "AAA=" 22050;
                  MsgResponseText "" true; MsgDone]))
    by reflexivity.
  split; [exact E|].
  exact (X10_a_turn_uses_its_audio_up Demo.sv _ _ _ _
           (JObj [("type", JStr "end_audio")]) _ eq_refl E).
Defined.

(** X11: the sample rate the client names has no effect on a turn: with the
    same audio, two sessions that differ in [sample_rate] send the same
    messages, leave the same transcript and end the same way. *)
Theorem X11_sample_rate_is_not_used (sv : services) (audio : list byte)
    (rate1 rate2 : json) (h : list turn) :
  let '(r1, h1, out1) := exec (end_audio sv (Session audio rate1)) h in
  let '(r2, h2, out2) := exec (end_audio sv (Session audio rate2)) h in
  h1 = h2 /\ out1 = out2
  /\ match r1, r2 with
     | Returned st1, Returned st2 => audio_buffer st1 = audio_buffer st2
     | Raised e1, Raised e2 => e1 = e2
     | _, _ => False
     end.
Proof.
  unfold end_audio. cbn [audio_buffer sample_rate].
  destruct audio as [|b bs]; [cbn; auto|].
  change (transcribe_audio sv (b :: bs) rate2)
    with (transcribe_audio sv (b :: bs) rate1).
  destruct (transcribe_audio sv (b :: bs) rate1) as [e|text]; [cbn; auto|].
  cbn [call bind send exec].
  destruct (PyStr.truthy text); cbn [negb]; [|cbn; auto].
  rewrite !exec_bind.
  destruct (exec (chat_stream sv text (on_chunk sv) ("", "")) h)
    as [[[[full buf]|e] h1] out1]; [|auto].
  rewrite !exec_bind.
  destruct (exec (if PyStr.truthy (strip buf) then speak sv (strip buf) else Ret tt) h1)
    as [[[[]|e] h2] out2]; cbn; auto.
Qed.

(** ** The messages of a completed turn *)

Lemma send_audio_exec (sv : services) (chunks : list (list byte)) (h : list turn) :
  exec (send_audio sv chunks) h
  = (Returned tt, h,
     map (fun c => MsgAudio (b64encode sv c) tts_sample_rate) chunks).
Proof.
  induction chunks as [|c more IH]; [reflexivity|].
  cbn [send_audio send bind exec]. now rewrite IH.
Qed.

(** A synthesis sends all its chunks, also when it fails in the end. *)
Lemma speak_exec (sv : services) (text : string) (h : list turn) :
  exec (speak sv text) h
  = (match snd (piper sv text) with
     | Some e => Raised e
     | None => Returned tt
     end, h, audio_msgs sv text).
Proof.
  unfold speak, audio_msgs. destruct (piper sv text) as [chunks failure].
  rewrite exec_bind, send_audio_exec. cbn [fst snd].
  destruct failure; cbn; now rewrite app_nil_r.
Qed.

Lemma on_chunk_exec (sv : services) (full_response sentence_buffer chunk : string)
    (h : list turn) :
  exec (on_chunk sv (full_response, sentence_buffer) chunk) h
  = match fst (feed sentence_buffer chunk) with
    | Some sentence =>
        (match snd (piper sv sentence) with
         | Some e => Raised e
         | None => Returned (full_response +++ chunk,
                             snd (feed sentence_buffer chunk))
         end, h, MsgResponseText chunk false :: audio_msgs sv sentence)
    | None =>
        (Returned (full_response +++ chunk, snd (feed sentence_buffer chunk)),
         h, [MsgResponseText chunk false])
    end.
Proof.
  unfold on_chunk. cbn [send bind exec].
  destruct (feed sentence_buffer chunk) as [[sentence|] buf]; cbn [fst snd].
  - rewrite exec_bind, speak_exec.
    destruct (snd (piper sv sentence)); cbn; now rewrite ?app_nil_r.
  - reflexivity.
Qed.

Lemma trailing_cons (buf d : string) (ds : list string) :
  trailing buf (d :: ds) = trailing (snd (feed buf d)) ds.
Proof.
  unfold trailing. simpl. destruct (feed buf d) as [spoken buf1]. simpl.
  now destruct (feed_all buf1 ds).
Qed.

Lemma emitted_cons (buf d : string) (ds : list string) :
  emitted buf (d :: ds)
  = match fst (feed buf d) with Some s => [s] | None => [] end
    ++ emitted (snd (feed buf d)) ds.
Proof.
  unfold emitted. simpl. destruct (feed buf d) as [spoken buf1]. simpl.
  now destruct (feed_all buf1 ds).
Qed.

(** The chunk loop that returns has sent the trace of its deltas. *)
Lemma aiter_lines_trace (sv : services) (lines : list line)
    (full full' fr fr' buf buf' : string) (h h' : list turn)
    (out : list server_msg) :
  exec (aiter_lines lines full (on_chunk sv) (fr, buf)) h
  = (Returned (full', (fr', buf')), h', out) ->
  out = stream_trace sv buf (deltas lines)
  /\ buf' = trailing buf (deltas lines)
  /\ fr' = fr +++ cat (deltas lines).
Proof.
  revert full fr buf out.
  induction lines as [|l more IH]; intros full fr buf out Hex.
  - cbn in Hex. injection Hex as _ <- <- _ <-. cbn.
    now rewrite append_nil_r.
  - destruct l as [| |data]; cbn [aiter_lines deltas] in *;
      try (eapply IH; exact Hex).
    rewrite exec_bind in Hex.
    destruct (line_content data) as [e|content]; [discriminate|].
    cbn [call exec] in Hex.
    destruct (Json.truthy content) eqn:Htruthy.
    + destruct content as [|b|n|content|items|fields]; try discriminate.
      cbn [Json.truthy] in Htruthy. rewrite Htruthy.
      rewrite exec_bind, on_chunk_exec in Hex.
      cbn [stream_trace cat]. rewrite trailing_cons.
      destruct (fst (feed buf content)) as [sentence|].
      * destruct (snd (piper sv sentence)); [discriminate|].
        destruct (exec (aiter_lines more (full +++ content) (on_chunk sv)
                          (fr +++ content, snd (feed buf content))) h)
          as [[r h2] out2] eqn:Hrest.
        cbn [app] in Hex. injection Hex as -> <- <-.
        destruct (IH _ _ _ _ Hrest) as (-> & -> & ->).
        rewrite append_assoc. repeat split.
      * destruct (exec (aiter_lines more (full +++ content) (on_chunk sv)
                          (fr +++ content, snd (feed buf content))) h)
          as [[r h2] out2] eqn:Hrest.
        cbn [app] in Hex. injection Hex as -> <- <-.
        destruct (IH _ _ _ _ Hrest) as (-> & -> & ->).
        rewrite append_assoc. repeat split.
    + assert (Hd : match content with
                   | JStr c => if PyStr.truthy c then c :: deltas more else deltas more
                   | _ => deltas more
                   end = deltas more).
      { destruct content; try reflexivity.
        cbn [Json.truthy] in Htruthy. now rewrite Htruthy. }
      rewrite Hd.
      destruct (exec (aiter_lines more full (on_chunk sv) (fr, buf)) h)
        as [[r h2] out2] eqn:Hrest.
      cbn [app] in Hex. injection Hex as -> <- <-.
      eapply IH; exact Hrest.
Qed.

(** The messages of a turn that completes, one after the other. *)
Lemma end_audio_trace (sv : services) (st st' : session) (h h' : list turn)
    (text : string) (out : list server_msg) :
  audio_buffer st <> [] ->
  transcribe_audio sv (audio_buffer st) (sample_rate st) = inr text ->
  PyStr.truthy text = true ->
  exec (end_audio sv st) h = (Returned st', h', out) ->
  exists lines,
    ollama sv (h ++ [Turn User text]) = (lines, None)
    /\ h' = h ++ [Turn User text; Turn Assistant (cat (deltas lines))]
    /\ out = MsgTranscript text
             :: stream_trace sv "" (deltas lines)
             ++ flat_map (audio_msgs sv) (final_flush (trailing "" (deltas lines)))
             ++ [MsgResponseText "" true; MsgDone].
Proof.
  intros Hbuf Htr Htext Hex. unfold end_audio in Hex.
  destruct (audio_buffer st) as [|b bs] eqn:Eb; [congruence|].
  rewrite Htr in Hex. cbn [call bind send exec] in Hex.
  rewrite Htext in Hex. cbn [negb] in Hex.
  rewrite exec_bind in Hex. unfold chat_stream in Hex. cbn [exec] in Hex.
  destruct (ollama sv (h ++ [Turn User text])) as [lines failure].
  rewrite exec_bind in Hex.
  destruct (exec (aiter_lines lines "" (on_chunk sv) ("", "")) (h ++ [Turn User text]))
    as [[[[full [fr buf]]|e] h1] out1] eqn:Hloop; [|discriminate].
  pose proof (aiter_lines_exec sv lines "" ("", "") (h ++ [Turn User text])) as Hh.
  rewrite Hloop in Hh. destruct Hh as (-> & _ & Hfull).
  specialize (Hfull _ _ eq_refl). simpl in Hfull. subst full.
  destruct (aiter_lines_trace _ _ _ _ _ _ _ _ _ _ _ Hloop) as (-> & -> & _).
  destruct failure as [e|]; [discriminate|].
  cbn [exec] in Hex. rewrite exec_bind in Hex.
  exists lines. unfold final_flush.
  destruct (PyStr.truthy (strip (trailing "" (deltas lines)))).
  - rewrite speak_exec in Hex.
    destruct (snd (piper sv (strip (trailing "" (deltas lines)))));
      [discriminate|].
    cbn in Hex. injection Hex as _ <- <-.
    rewrite <- !app_assoc. cbn. rewrite !app_nil_r. repeat split.
  - cbn in Hex. injection Hex as _ <- <-.
    rewrite <- !app_assoc. cbn. repeat split.
Qed.

Lemma audio_msgs_kinds (sv : services) (text : string) :
  filter is_audio (audio_msgs sv text) = audio_msgs sv text
  /\ filter is_response_text (audio_msgs sv text) = []
  /\ filter is_done (audio_msgs sv text) = [].
Proof.
  unfold audio_msgs. induction (fst (piper sv text)) as [|c more (Ha & Ht & Hd)];
    [now repeat split|].
  simpl. rewrite Ha, Ht, Hd. now repeat split.
Qed.

Lemma flat_map_audio_kinds (sv : services) (sentences : list string) :
  filter is_audio (flat_map (audio_msgs sv) sentences)
  = flat_map (audio_msgs sv) sentences
  /\ filter is_response_text (flat_map (audio_msgs sv) sentences) = []
  /\ filter is_done (flat_map (audio_msgs sv) sentences) = [].
Proof.
  induction sentences as [|s more (Ha & Ht & Hd)]; [now repeat split|].
  simpl. rewrite !filter_app, Ha, Ht, Hd.
  destruct (audio_msgs_kinds sv s) as (-> & -> & ->). now repeat split.
Qed.

Lemma stream_trace_kinds (sv : services) (ds : list string) (buf : string) :
  filter is_response_text (stream_trace sv buf ds)
  = map (fun d => MsgResponseText d false) ds
  /\ filter is_audio (stream_trace sv buf ds)
     = flat_map (audio_msgs sv) (emitted buf ds)
  /\ filter is_done (stream_trace sv buf ds) = [].
Proof.
  revert buf. induction ds as [|d more IH]; intros buf; [now repeat split|].
  destruct (IH (snd (feed buf d))) as (Ht & Ha & Hd).
  cbn [stream_trace filter is_response_text is_audio is_done map].
  rewrite !filter_app, Ht, Ha, Hd, emitted_cons.
  destruct (fst (feed buf d)) as [sentence|].
  - destruct (audio_msgs_kinds sv sentence) as (-> & -> & ->).
    cbn [flat_map app]. rewrite ?app_nil_r. now repeat split.
  - now repeat split.
Qed.



(** X13: in a turn that completes, the [audio] messages are the chunks of
    the Sentences the segmenter emitted, Sentence after Sentence in the
    order of emission and chunk after chunk within each, followed by the
    chunks of the final flush: no chunk of a later Sentence comes before a
    chunk of an earlier one. *)
Theorem X13_audio_of_a_completed_turn (sv : services) (st st' : session)
    (h h' : list turn) (text : string) (out : list server_msg) :
  audio_buffer st <> [] ->
  transcribe_audio sv (audio_buffer st) (sample_rate st) = inr text ->
  PyStr.truthy text = true ->
  exec (end_audio sv st) h = (Returned st', h', out) ->
  exists lines,
    ollama sv (h ++ [Turn User text]) = (lines, None)
    /\ filter is_audio out
       = flat_map (audio_msgs sv)
           (emitted "" (deltas lines)
            ++ final_flush (trailing "" (deltas lines))).
Proof.
  intros Hbuf Htr Htext Hex.
  destruct (end_audio_trace sv st st' h h' text out Hbuf Htr Htext Hex)
    as (lines & Hol & _ & ->).
  exists lines. split; [exact Hol|].
  destruct (stream_trace_kinds sv (deltas lines) "") as (_ & Ha & _).
  destruct (flat_map_audio_kinds sv (final_flush (trailing "" (deltas lines))))
    as (Ha2 & _ & _).
  cbn [filter is_audio].
  rewrite !filter_app, Ha, Ha2. cbn. rewrite app_nil_r.
  now rewrite flat_map_app.
Qed.

Lemma X13_audio_of_a_completed_turn_witness :
  audio_buffer Demo.recorded <> []
  /\ exists lines,
       ollama Demo.sv ([system_turn] ++ [Turn User "Hello there."]) = (lines, None)
       /\ filter is_audio
            [MsgTranscript "Hello there."; MsgResponseText "Nice to" false;
             MsgResponseText " meet you." false; MsgAudio "AAA=" 22050;
             MsgResponseText "" true; MsgDone]
          = flat_map (audio_msgs Demo.sv)
              (emitted "" (deltas lines)
               ++ final_flush (trailing "" (deltas lines))).
Proof.
  assert (Hbuf : audio_buffer Demo.recorded <> []) by discriminate.
  split; [exact Hbuf|].
  refine (X13_audio_of_a_completed_turn Demo.sv Demo.recorded
            (Session [] (JNum 16000)) [system_turn] _ "Hello there." _
            Hbuf eq_refl eq_refl _).
  reflexivity.
Defined.

(** ** Model loading *)

(** X14: the two models are loaded lazily and once: a call that returns a
    model leaves it in its global and leaves the other global alone, and
    every later call returns that same model without calling the
    constructor; a call whose constructor raises leaves the globals as they
    were, so the next call tries again. *)
Theorem X14_models_are_loaded_once (W P : Type) :
  (forall (load : exn + W) (g g' : @models W P) (m : W),
      get_whisper_model load g = (inr m, g') ->
      whisper_model g' = Some m
      /\ piper_voice g' = piper_voice g
      /\ forall load', get_whisper_model load' g' = (inr m, g'))
  /\ (forall (load : exn + W) (g g' : @models W P) (e : exn),
        get_whisper_model load g = (inl e, g') ->
        g' = g /\ whisper_model g = None /\ load = inl e)
  /\ (forall (load : exn + P) (g g' : @models W P) (v : P),
        get_piper_voice load g = (inr v, g') ->
        piper_voice g' = Some v
        /\ whisper_model g' = whisper_model g
        /\ forall load', get_piper_voice load' g' = (inr v, g'))
  /\ (forall (load : exn + P) (g g' : @models W P) (e : exn),
        get_piper_voice load g = (inl e, g') ->
        g' = g /\ piper_voice g = None /\ load = inl e).
Proof.
  repeat split.
  - unfold get_whisper_model in H.
    destruct (whisper_model g) as [m0|] eqn:E.
    + injection H as <- <-. exact E.
    + destruct load; [discriminate|]. now injection H as <- <-.
  - unfold get_whisper_model in H.
    destruct (whisper_model g) as [m0|] eqn:E.
    + now injection H as _ <-.
    + destruct load; [discriminate|]. now injection H as _ <-.
  - intros load'. unfold get_whisper_model in *.
    destruct (whisper_model g) as [m0|] eqn:E.
    + injection H as <- <-. now rewrite E.
    + destruct load; [discriminate|]. now injection H as <- <-.
  - unfold get_whisper_model in H.
    destruct (whisper_model g); [discriminate|].
    destruct load; [now injection H as _ <- | discriminate].
  - unfold get_whisper_model in H.
    destruct (whisper_model g); [discriminate | reflexivity].
  - unfold get_whisper_model in H.
    destruct (whisper_model g); [discriminate|].
    destruct load; [now injection H as <- _ | discriminate].
  - unfold get_piper_voice in H.
    destruct (piper_voice g) as [v0|] eqn:E.
    + injection H as <- <-. exact E.
    + destruct load; [discriminate|]. now injection H as <- <-.
  - unfold get_piper_voice in H.
    destruct (piper_voice g) as [v0|] eqn:E.
    + now injection H as _ <-.
    + destruct load; [discriminate|]. now injection H as _ <-.
  - intros load'. unfold get_piper_voice in *.
    destruct (piper_voice g) as [v0|] eqn:E.
    + injection H as <- <-. now rewrite E.
    + destruct load; [discriminate|]. now injection H as <- <-.
  - unfold get_piper_voice in H.
    destruct (piper_voice g); [discriminate|].
    destruct load; [now injection H as _ <- | discriminate].
  - unfold get_piper_voice in H.
    destruct (piper_voice g); [discriminate | reflexivity].
  - unfold get_piper_voice in H.
    destruct (piper_voice g); [discriminate|].
    destruct load; [now injection H as <- _ | discriminate].
Qed.

Lemma X14_models_are_loaded_once_witness :
  get_whisper_model (inr 7%nat) (@unloaded nat nat) = (inr 7%nat, Models (Some 7%nat) None)
  /\ forall load',
       get_whisper_model load' (@Models nat nat (Some 7%nat) None)
       = (inr 7%nat, Models (Some 7%nat) None).
Proof.
  split; [reflexivity|].
  destruct (X14_models_are_loaded_once nat nat) as (Hw & _).
  exact (proj2 (proj2 (Hw (inr 7%nat) unloaded (Models (Some 7%nat) None)
                         7%nat eq_refl))).
Defined.
